(** * DC Spec Dashboard: ingestion, normalisation, geocoding and ranking

    A shallow embedding of the data pipeline of [src/index.tsx] and of its
    sibling variant [src/unnamed/part_000]: the cell coercers ([getVal],
    [parseNum]), the row normaliser inside [handleFileUpload], the geocoding
    run of [processAndSaveData], and the memoised views [filteredData],
    [summary] and [trends].

    Conventions of the embedding
    - A JavaScript string is the list of its UTF-16 code units.
    - A JavaScript number is [NaN], a signed infinity, or a double, written
      [Dec m e] with the digits [Number::toString] prints for it.  Reading
      a decimal and adding two numbers round to the nearest double, ties
      to even, with overflow to an infinity and underflow to [0]; [-0] is
      identified with [0] (the program only tests numbers for truthiness,
      orders them and prints them, and none of these tells the two zeros
      apart).
    - A plain object used as a dictionary is the list of its own properties
      in creation order; [Object.entries] applies the ECMAScript property
      order on top of it. *)

From Stdlib Require Import ZArith NArith List Bool String Ascii Lia.
From Stdlib Require Import DecimalPos Sorted Permutation.
From ExtLib Require Import Structures.Monad Structures.MonadState Data.Monads.StateMonad.
Import ListNotations.
Import MonadNotation.
Open Scope monad_scope.
Open Scope list_scope.

Set Implicit Arguments.

(* ===================================================================== *)
(** ** JavaScript strings *)
(* ===================================================================== *)

Module JsString.

Definition jsstring := list N.

Definition eqb (a b : jsstring) : bool :=
  if list_eq_dec N.eq_dec a b then true else false.

(** Source literals are written in UTF-8; [utf16] decodes them into the
    code units the engine sees (a four-byte sequence becomes a surrogate
    pair). *)
Definition cont (b : N) : N := N.land b 63.

Fixpoint utf16_of_bytes (bs : list N) : jsstring :=
  match bs with
  | [] => []
  | b0 :: r0 =>
    if (b0 <? 128)%N then b0 :: utf16_of_bytes r0 else
    match r0 with
    | [] => [b0]
    | b1 :: r1 =>
      if (b0 <? 224)%N
      then (N.shiftl (N.land b0 31) 6 + cont b1)%N :: utf16_of_bytes r1 else
      match r1 with
      | [] => [b0; b1]
      | b2 :: r2 =>
        if (b0 <? 240)%N
        then (N.shiftl (N.land b0 15) 12 + N.shiftl (cont b1) 6 + cont b2)%N
               :: utf16_of_bytes r2 else
        match r2 with
        | [] => [b0; b1; b2]
        | b3 :: r3 =>
          let cp := (N.shiftl (N.land b0 7) 18 + N.shiftl (cont b1) 12
                     + N.shiftl (cont b2) 6 + cont b3 - 65536)%N in
          (55296 + N.shiftr cp 10)%N :: (56320 + N.land cp 1023)%N
            :: utf16_of_bytes r3
        end
      end
    end
  end.

Definition utf16 (s : string) : jsstring :=
  utf16_of_bytes (map N_of_ascii (list_ascii_of_string s)).

(** The truthiness of a string: only the empty string is falsy. *)
Definition truthy (s : jsstring) : bool :=
  match s with [] => false | _ => true end.

(** WhiteSpace and LineTerminator code units, as stripped by
    [String.prototype.trim] and skipped by [parseFloat]. *)
Definition isSpace (c : N) : bool :=
  ((9 <=? c) && (c <=? 13) || (c =? 32) || (c =? 160) || (c =? 5760)
   || (8192 <=? c) && (c <=? 8202) || (c =? 8232) || (c =? 8233)
   || (c =? 8239) || (c =? 8287) || (c =? 12288) || (c =? 65279))%N.

Fixpoint trimStart (s : jsstring) : jsstring :=
  match s with
  | c :: r => if isSpace c then trimStart r else s
  | [] => []
  end.

Definition trimEnd (s : jsstring) : jsstring := rev (trimStart (rev s)).

Definition trim (s : jsstring) : jsstring := trimEnd (trimStart s).

Definition isDigit (c : N) : bool := ((48 <=? c) && (c <=? 57))%N.

Fixpoint span (p : N -> bool) (s : jsstring) : jsstring * jsstring :=
  match s with
  | c :: r => if p c then let '(a, b) := span p r in (c :: a, b) else ([], s)
  | [] => ([], [])
  end.

(** [prefix lit s] strips the literal [lit] from the head of [s]. *)
Fixpoint prefix (lit s : jsstring) : option jsstring :=
  match lit, s with
  | [], _ => Some s
  | a :: lit', b :: s' => if (a =? b)%N then prefix lit' s' else None
  | _ :: _, [] => None
  end.

Definition digitVal (c : N) : Z := (Z.of_N c - 48)%Z.

Definition digitsToZ (ds : jsstring) : Z :=
  fold_left (fun acc d => acc * 10 + digitVal d)%Z ds 0%Z.

(** Decimal digits of a positive number, most significant first. *)
Fixpoint uintDigits (u : Decimal.uint) : jsstring :=
  match u with
  | Decimal.Nil => []
  | Decimal.D0 r => 48%N :: uintDigits r
  | Decimal.D1 r => 49%N :: uintDigits r
  | Decimal.D2 r => 50%N :: uintDigits r
  | Decimal.D3 r => 51%N :: uintDigits r
  | Decimal.D4 r => 52%N :: uintDigits r
  | Decimal.D5 r => 53%N :: uintDigits r
  | Decimal.D6 r => 54%N :: uintDigits r
  | Decimal.D7 r => 55%N :: uintDigits r
  | Decimal.D8 r => 56%N :: uintDigits r
  | Decimal.D9 r => 57%N :: uintDigits r
  end.

Definition posDigits (p : positive) : jsstring := uintDigits (Pos.to_uint p).

Definition natDigits (n : nat) : jsstring :=
  match n with
  | O => [48%N]
  | S _ => posDigits (Pos.of_nat n)
  end.

End JsString.

Import JsString.

(* ===================================================================== *)
(** ** JavaScript numbers *)
(* ===================================================================== *)

Module JsNumber.

(** A number is a double.  [Dec m e] stands for the double nearest to
    [m * 10^e]; the numbers the program computes are written with the
    digits that [Number::toString] prints for them, so that [Dec 1 (-1)]
    is the double [0.1] and [Dec 30000000000000004 (-17)] the double
    [0.1 + 0.2].  The sign of zero is not kept. *)
Inductive number :=
| NaN
| Infinity (neg : bool)
| Dec (m e : Z).

Definition zero : number := Dec 0 0.
Definition ofZ (z : Z) : number := Dec z 0.
Definition ofNat (n : nat) : number := Dec (Z.of_nat n) 0.

Definition isNaN (n : number) : bool :=
  match n with NaN => true | _ => false end.

Definition isFinite (n : number) : bool :=
  match n with Dec _ _ => true | _ => false end.

(** ToBoolean on a number: [NaN] and zero are falsy. *)
Definition truthy (n : number) : bool :=
  match n with
  | NaN => false
  | Infinity _ => true
  | Dec m _ => negb (m =? 0)%Z
  end.

(** The mantissa of [m * 10^e] once rewritten at the exponent [E <= e]. *)
Definition scaled (m e E : Z) : Z := (m * 10 ^ (e - E))%Z.

Definition signed (neg : bool) (z : Z) : Z := if neg then (- z)%Z else z.

(** *** Rounding to the nearest double *)

(** The number of decimal digits of a positive integer: the estimate
    [log2 n * log10 2] is at most one off. *)
Definition digitCount (n : Z) : Z :=
  (if n <=? 0 then 0
   else
     let c := Z.log2 n * 30103 / 100000 in
     if n <? 10 ^ c then c
     else if n <? 10 ^ (c + 1) then c + 1
     else c + 2)%Z.

(** [2^l <= p / q] *)
Definition atLeastPow2 (p q l : Z) : bool :=
  (if 0 <=? l then q * 2 ^ l <=? p else q <=? p * 2 ^ (- l))%Z.

(** The double nearest to the fraction [p / q] ([p] and [q] positive),
    ties going to the even significand: [Some (k, x)] is the double
    [k * 2^x], with [x >= -1074] and [k <= 2^53]; [None] is an overflow. *)
Definition nearestDouble (p q : Z) : option (Z * Z) :=
  (let l0 := Z.log2 p - Z.log2 q in
   let l := if atLeastPow2 p q l0 then l0 else l0 - 1 in
   let x := Z.max (l - 52) (-1074) in
   let num := if 0 <=? x then p else p * 2 ^ (- x) in
   let den := if 0 <=? x then q * 2 ^ x else q in
   let k0 := num / den in
   let k := match 2 * (num mod den) ?= den with
            | Lt => k0
            | Gt => k0 + 1
            | Eq => if Z.even k0 then k0 else k0 + 1
            end in
   if (971 <? x) || ((971 =? x) && (2 ^ 53 <=? k)) then None
   else Some (k, x))%Z.

(** The double nearest to [n * 10^e], for [n] positive. *)
Definition doubleOf (n e : Z) : option (Z * Z) :=
  (if 0 <=? e then nearestDouble (n * 10 ^ e) 1
   else nearestDouble n (10 ^ (- e)))%Z.

Definition sameDouble (a b : Z * Z) : bool :=
  (let x := Z.min (snd a) (snd b) in
   fst a * 2 ^ (snd a - x) =? fst b * 2 ^ (snd b - x))%Z.

(** How often [2] divides a positive integer. *)
Fixpoint twos (p : positive) : Z :=
  match p with
  | xO q => (1 + twos q)%Z
  | _ => 0%Z
  end.

(** The double [k * 2^x] written out in decimal, as [(M, E)] with
    [k * 2^x = M * 10^E]: an integer at the exponent [0]. *)
Definition expansion (k x : Z) : Z * Z :=
  (if 0 <=? x then (k * 2 ^ x, 0)
   else
     let j := Z.min (- x) (match k with Zpos p => twos p | _ => 0 end) in
     ((k / 2 ^ j) * 5 ^ (- x - j), x + j))%Z.

(** Whether the decimal [s * 10^t] is read as the double [d]. *)
Definition readsAs (d : Z * Z) (s t : Z) : bool :=
  match doubleOf s t with
  | Some d' => sameDouble d d'
  | None => false
  end.

(** The digits of [Number::toString]: the decimal with the fewest digits,
    at most 17, that is read as the double [d = M * 10^E]; among several
    of that length the one closest to the double, then the even one.
    [D] is the number of digits of [M], and the search starts at [n]
    digits. *)
Fixpoint shortestFrom (fuel : nat) (n : Z) (d : Z * Z) (M E D : Z) : Z * Z :=
  match fuel with
  | O => (M, E)
  | S fuel' =>
    (if D <=? n then (M, E)
     else
       let t := D - n in
       let lo := M / 10 ^ t in
       let hi := lo + 1 in
       let okLo := readsAs d lo (E + t) in
       let okHi := readsAs d hi (E + t) in
       if okLo && okHi then
         match M - lo * 10 ^ t ?= hi * 10 ^ t - M with
         | Lt => (lo, E + t)
         | Gt => (hi, E + t)
         | Eq => (if Z.even lo then lo else hi, E + t)
         end
       else if okLo then (lo, E + t)
       else if okHi then (hi, E + t)
       else shortestFrom fuel' (n + 1) d M E D)%Z
  end.

(** A decimal of at most 15 digits, well inside the range of the normal
    doubles: it is read as a double that is printed with these digits. *)
Definition short (m e : Z) : bool :=
  ((Z.abs m <? 10 ^ 15) && (-300 <=? e) && (e <=? 290))%Z.

(** The Number value of the decimal [m * 10^e]: the nearest double,
    written with the digits [Number::toString] gives it; an integer below
    [10^21] is written at the exponent [0]. *)
Definition roundDec (m e : Z) : number :=
  (let g := e + digitCount (Z.abs m) in
   if m =? 0 then zero
   else if 310 <=? g then Infinity (m <? 0)
   else if g <=? -325 then zero
   else
     match doubleOf (Z.abs m) e with
     | None => Infinity (m <? 0)
     | Some (k, x) =>
       let '(M, E) := expansion k x in
       let '(s, t) := shortestFrom 17 1 (k, x) M E (digitCount M) in
       if s =? 0 then zero
       else if (0 <? t) && (t + digitCount s <=? 21)
       then Dec (signed (m <? 0) (Z.abs s * 10 ^ t)) 0
       else Dec (signed (m <? 0) (Z.abs s)) t
     end)%Z.

Definition numberValue (n : number) : number :=
  match n with
  | Dec m e =>
    if (m =? 0)%Z then zero
    else if short m e then n
    else roundDec m e
  | _ => n
  end.

(** The double a number stands for, written out in full. *)
Definition exactDouble (n : number) : number :=
  match n with
  | Dec m e =>
    (let g := e + digitCount (Z.abs m) in
     if m =? 0 then zero
     else if 310 <=? g then Infinity (m <? 0)
     else if g <=? -325 then zero
     else
       match doubleOf (Z.abs m) e with
       | None => Infinity (m <? 0)
       | Some (k, x) =>
         let '(M, E) := expansion k x in Dec (signed (m <? 0) M) E
       end)%Z
  | _ => n
  end.

(** The sum of two decimals, before any rounding. *)
Definition exactAdd (a b : number) : number :=
  match a, b with
  | NaN, _ | _, NaN => NaN
  | Infinity s, Infinity t => if Bool.eqb s t then Infinity s else NaN
  | Infinity s, Dec _ _ => Infinity s
  | Dec _ _, Infinity t => Infinity t
  | Dec m1 e1, Dec m2 e2 =>
    let E := Z.min e1 e2 in Dec (scaled m1 e1 E + scaled m2 e2 E) E
  end.

(** [a + b]: the two doubles are added exactly and the sum is rounded to
    the nearest double. *)
Definition add (a b : number) : number :=
  numberValue (exactAdd (exactDouble a) (exactDouble b)).

Definition opp (a : number) : number :=
  match a with
  | NaN => NaN
  | Infinity s => Infinity (negb s)
  | Dec m e => Dec (- m) e
  end.

(** [a - b] as a comparator returns it: the difference before rounding.
    Only its sign is ever looked at, and the rounded difference of two
    doubles is positive, zero, negative or [NaN] exactly when the
    difference itself is. *)
Definition sub (a b : number) : number := exactAdd a (opp b).

(** How a number compares with zero; [None] for [NaN]. *)
Definition sign (a : number) : option comparison :=
  match a with
  | NaN => None
  | Infinity s => Some (if s then Lt else Gt)
  | Dec m _ => Some (m ?= 0)%Z
  end.

(** The numeric order behind [<], [>], [>=] and [===]; [None] as soon as
    one side is [NaN], in which case every such test is false. *)
Definition compare (a b : number) : option comparison :=
  match a, b with
  | NaN, _ | _, NaN => None
  | Infinity s, Infinity t =>
    Some (if Bool.eqb s t then Eq else if s then Lt else Gt)
  | Infinity s, Dec _ _ => Some (if s then Lt else Gt)
  | Dec _ _, Infinity t => Some (if t then Gt else Lt)
  | Dec m1 e1, Dec m2 e2 =>
    let E := Z.min e1 e2 in Some (scaled m1 e1 E ?= scaled m2 e2 E)%Z
  end.

Definition strictEq (a b : number) : bool :=
  match compare a b with Some Eq => true | _ => false end.

Definition ltb (a b : number) : bool :=
  match compare a b with Some Lt => true | _ => false end.

Definition gtb (a b : number) : bool := ltb b a.

Definition geb (a b : number) : bool :=
  match compare a b with Some Gt | Some Eq => true | _ => false end.

(** SameValueZero, the equality of [Set] and [Array.prototype.includes]. *)
Definition sameValueZero (a b : number) : bool :=
  match a, b with
  | NaN, NaN => true
  | _, _ => strictEq a b
  end.

(** *** Number::toString (radix 10) *)

Fixpoint dropZeros (rs : jsstring) : nat * jsstring :=
  match rs with
  | 48%N :: r => let '(z, s) := dropZeros r in (S z, s)
  | _ => (O, rs)
  end.

Definition zeros (n : Z) : jsstring := repeat 48%N (Z.to_nat n).

Definition finiteToString (p : positive) (e : Z) : jsstring :=
  let '(z, rs) := dropZeros (rev (posDigits p)) in
  let s := rev rs in
  let k := Z.of_nat (List.length s) in
  let n := (k + e + Z.of_nat z)%Z in
  if ((k <=? n) && (n <=? 21))%Z then s ++ zeros (n - k)
  else if ((0 <? n) && (n <=? 21))%Z
  then firstn (Z.to_nat n) s ++ [46%N] ++ skipn (Z.to_nat n) s
  else if ((-6 <? n) && (n <=? 0))%Z
  then [48%N; 46%N] ++ zeros (- n) ++ s
  else
    let x := (n - 1)%Z in
    let expo := [101%N; if (x <? 0)%Z then 45%N else 43%N]
                ++ natDigits (Z.abs_nat x) in
    match s with
    | [d] => d :: expo
    | _ => firstn 1 s ++ [46%N] ++ skipn 1 s ++ expo
    end.

Definition toString (n : number) : jsstring :=
  match n with
  | NaN => utf16 "NaN"
  | Infinity s => if s then utf16 "-Infinity" else utf16 "Infinity"
  | Dec Z0 _ => utf16 "0"
  | Dec (Zpos p) e => finiteToString p e
  | Dec (Zneg p) e => 45%N :: finiteToString p e
  end.

(** *** Numeric literals in strings *)

(** An optional sign, and what follows it. *)
Definition signPart (s : jsstring) : bool * jsstring :=
  match s with
  | 45%N :: r => (true, r)
  | 43%N :: r => (false, r)
  | _ => (false, s)
  end.

(** The digits after a decimal point, if there is one. *)
Definition fractionPart (s : jsstring) : jsstring * jsstring :=
  match s with
  | 46%N :: r => span isDigit r
  | _ => ([], s)
  end.

(** ExponentPart: [e] or [E], an optional sign and at least one digit;
    anything else is left unread. *)
Definition exponentPart (s : jsstring) : Z * jsstring :=
  match s with
  | c :: r =>
    if ((c =? 101) || (c =? 69))%N then
      let '(neg, r') := signPart r in
      match span isDigit r' with
      | ([], _) => (0%Z, s)
      | (ds, rest) => (signed neg (digitsToZ ds), rest)
      end
    else (0%Z, s)
  | [] => (0%Z, s)
  end.

(** The longest prefix that is a StrDecimalLiteral, as the decimal it
    spells, with what follows it. *)
Definition scanDecimal (s : jsstring) : option (number * jsstring) :=
  let '(neg, s1) := signPart s in
  match prefix (utf16 "Infinity") s1 with
  | Some rest => Some (Infinity neg, rest)
  | None =>
    let '(ip, r1) := span isDigit s1 in
    let '(fp, r2) := fractionPart r1 in
    match ip ++ fp with
    | [] => None
    | ds =>
      let '(x, rest) := exponentPart r2 in
      Some (Dec (signed neg (digitsToZ ds)) (x - Z.of_nat (List.length fp)), rest)
    end
  end.

(** The global [parseFloat], applied to a string: the Number value of the
    longest prefix that is a decimal literal. *)
Definition parseFloat (s : jsstring) : number :=
  match scanDecimal (trimStart s) with
  | Some (n, _) => numberValue n
  | None => NaN
  end.

(** NonDecimalIntegerLiteral: [0x], [0o] and [0b] forms, unsigned. *)
Definition radixDigit (radix : Z) (c : N) : option Z :=
  let v := (if isDigit c then Z.of_N c - 48
            else if ((97 <=? c) && (c <=? 102))%N then Z.of_N c - 87
            else if ((65 <=? c) && (c <=? 70))%N then Z.of_N c - 55
            else 99)%Z in
  if (v <? radix)%Z then Some v else None.

Fixpoint radixValue (radix : Z) (acc : Z) (s : jsstring) : option Z :=
  match s with
  | [] => Some acc
  | c :: r =>
    match radixDigit radix c with
    | Some v => radixValue radix (acc * radix + v) r
    | None => None
    end
  end.

Definition nonDecimal (s : jsstring) : option number :=
  match s with
  | 48%N :: c :: (_ :: _) as ds =>
    let radix := (if ((c =? 120) || (c =? 88))%N then 16
                  else if ((c =? 111) || (c =? 79))%N then 8
                  else if ((c =? 98) || (c =? 66))%N then 2 else 0)%Z in
    if (radix =? 0)%Z then None
    else option_map (fun z => numberValue (ofZ z)) (radixValue radix 0 ds)
  | _ => None
  end.

(** [Number(s)] on a string (StringToNumber). *)
Definition toNumber (s : jsstring) : number :=
  match trim s with
  | [] => zero
  | t =>
    match nonDecimal t with
    | Some n => n
    | None =>
      match scanDecimal t with
      | Some (n, []) => numberValue n
      | _ => NaN
      end
    end
  end.

End JsNumber.

Import JsNumber.

(* ===================================================================== *)
(** ** Cell values and raw rows *)
(* ===================================================================== *)

(** What the spreadsheet decoder puts in a row object: a missing cell reads
    as [undefined]; a present one is a boolean, a number or a string. *)
Inductive cell :=
| Undefined
| Null
| Bool (b : bool)
| Num (n : number)
| Str (s : jsstring).

Module Cell.

Definition truthy (v : cell) : bool :=
  match v with
  | Undefined | Null => false
  | Bool b => b
  | Num n => JsNumber.truthy n
  | Str s => JsString.truthy s
  end.

(** [v || d] *)
Definition orElse (v d : cell) : cell := if truthy v then v else d.

(** [String(v)] *)
Definition toString (v : cell) : jsstring :=
  match v with
  | Undefined => utf16 "undefined"
  | Null => utf16 "null"
  | Bool true => utf16 "true"
  | Bool false => utf16 "false"
  | Num n => JsNumber.toString n
  | Str s => s
  end.

End Cell.

(** A row object, as the list of its own enumerable properties in the
    order of [Object.keys]. *)
Definition rawRow := list (jsstring * cell).

(** [row[k]] for an own key. *)
Fixpoint rowGet (row : rawRow) (k : jsstring) : cell :=
  match row with
  | [] => Undefined
  | (k', v) :: r => if JsString.eqb k' k then v else rowGet r k
  end.

(* ===================================================================== *)
(** ** Utility functions shared by both variants *)
(* ===================================================================== *)

(** [String.prototype.toLowerCase], unit by unit.  Only the case pairs that
    reach the class [a-z0-9가-힣] are spelled out (the Latin capitals,
    U+0130 and the Kelvin sign U+212A); every other case pair of Unicode
    maps a unit outside that class to units outside it, so that
    [normalizeKey] below is exact on every string. *)
Definition lowerUnit (c : N) : jsstring :=
  if ((65 <=? c) && (c <=? 90))%N then [(c + 32)%N]
  else if (c =? 304)%N then [105%N; 775%N]
  else if (c =? 8490)%N then [107%N]
  else [c].

Definition toLowerCase (s : jsstring) : jsstring := flat_map lowerUnit s.

(** The complement of [/[^a-z0-9가-힣]/]. *)
Definition keyUnit (c : N) : bool :=
  ((97 <=? c) && (c <=? 122) || (48 <=? c) && (c <=? 57)
   || (44032 <=? c) && (c <=? 55203))%N.

(** [normalizeKey] (index.tsx l. 92, part_000 l. 88) *)
Definition normalizeKey (key : jsstring) : jsstring :=
  filter keyUnit (toLowerCase key).

Definition includes (l : list jsstring) (x : jsstring) : bool :=
  existsb (fun y => JsString.eqb y x) l.

(** [getVal] (index.tsx l. 94-104, part_000 l. 90-95): the value under
    the first key of the row whose normal form is that of some alias;
    [undefined] when there is none, or when that key is the empty string. *)
Definition getVal (row : rawRow) (aliases : list jsstring) : cell :=
  let rowKeys := map fst row in
  let normalizedAliases := map normalizeKey aliases in
  let foundKey :=
    find (fun k => let nk := normalizeKey k in includes normalizedAliases nk)
         rowKeys in
  match foundKey with
  | Some k => if JsString.truthy k then rowGet row k else Undefined
  | None => Undefined
  end.

(** The complement of [/[^0-9.]/]. *)
Definition numUnit (c : N) : bool := (isDigit c || (c =? 46))%N.

(** [parseNum] (index.tsx l. 106-112, part_000 l. 97-102) *)
Definition parseNum (val : cell) : number :=
  match val with
  | Undefined | Null | Str [] => zero
  | Num n => n
  | _ =>
    let cleaned := filter numUnit (Cell.toString val) in
    let parsed := parseFloat cleaned in
    if isNaN parsed then zero else parsed
  end.

(** [x || null] on a number. *)
Definition orNull (x : number) : option number :=
  if JsNumber.truthy x then Some x else None.

(** [Array.prototype.map] with the index passed to the callback. *)
Fixpoint mapiFrom {A B} (f : A -> nat -> B) (i : nat) (l : list A) : list B :=
  match l with
  | [] => []
  | a :: r => f a i :: mapiFrom f (S i) r
  end.

Definition mapi {A B} (f : A -> nat -> B) (l : list A) : list B :=
  mapiFrom f 0 l.

(* ===================================================================== *)
(** ** Canonical records *)
(* ===================================================================== *)

(** [interface ExcelRow].  A coordinate is [None] when the field holds
    [null] (or [undefined]: the two are only ever tested for truthiness). *)
Record ExcelRow := {
  id : jsstring;
  project_name : jsstring;
  year : number;
  month : number;
  progress : jsstring;
  address : jsstring;
  latitude : option number;
  longitude : option number;
  designer : jsstring;
  constructor : jsstring;
  product_name : jsstring;
  quantity : number;
  spec_amount : number
}.

Definition u (s : string) : jsstring := utf16 s.

(** [String(v || fallback)], the coercion of every text field. *)
Definition text (v : cell) (fallback : string) : jsstring :=
  Cell.toString (Cell.orElse v (Str (u fallback))).

(* ===================================================================== *)
(** ** Arrays, sets and plain objects *)
(* ===================================================================== *)

(** [Array.from(new Set(l))]: the distinct elements, each at the place of
    its first occurrence. *)
Fixpoint uniqueFrom {A} (eqb : A -> A -> bool) (seen l : list A) : list A :=
  match l with
  | [] => []
  | x :: r =>
    if existsb (eqb x) seen then uniqueFrom eqb seen r
    else x :: uniqueFrom eqb (x :: seen) r
  end.

Definition unique {A} (eqb : A -> A -> bool) (l : list A) : list A :=
  uniqueFrom eqb [] l.

(** [Array.prototype.sort(compareFn)].  The sort is stable; [x] is moved
    behind [y] only when [compareFn(x, y)] is positive, a [NaN] result
    counting as [0].  (When [compareFn] is not a consistent comparator the
    order is left to the engine; the insertion order below is then one
    admissible outcome.) *)
Section Sort.
Variable A : Type.
Variable compareFn : A -> A -> number.

Definition after (x y : A) : bool :=
  match sign (compareFn x y) with Some Gt => true | _ => false end.

Fixpoint insert (x : A) (l : list A) : list A :=
  match l with
  | [] => [x]
  | y :: r => if after x y then y :: insert x r else x :: l
  end.

Fixpoint sort (l : list A) : list A :=
  match l with
  | [] => []
  | x :: r => insert x (sort r)
  end.

End Sort.

Module Obj.

(** Own properties in creation order. *)
Definition t (V : Type) := list (jsstring * V).

Fixpoint getOwn {V} (o : t V) (k : jsstring) : option V :=
  match o with
  | [] => None
  | (k', v) :: r => if JsString.eqb k' k then Some v else getOwn r k
  end.

(** [o[k] = v] on an ordinary data property: an existing property keeps
    its place, a new one goes last. *)
Fixpoint set {V} (o : t V) (k : jsstring) (v : V) : t V :=
  match o with
  | [] => [(k, v)]
  | (k', v') :: r =>
    if JsString.eqb k' k then (k', v) :: r else (k', v') :: set r k v
  end.

(** The property names every plain object inherits from
    [Object.prototype]. *)
Definition prototypeNames : list jsstring :=
  [ u "constructor"; u "__proto__"; u "hasOwnProperty"; u "isPrototypeOf";
    u "propertyIsEnumerable"; u "toLocaleString"; u "toString"; u "valueOf";
    u "__defineGetter__"; u "__defineSetter__"; u "__lookupGetter__";
    u "__lookupSetter__" ].

Definition inherited (k : jsstring) : bool := includes prototypeNames k.

(** A key is an array index when it is the canonical decimal form of an
    integer below [2^32 - 1]. *)
Definition arrayIndex (k : jsstring) : option Z :=
  match k with
  | [] => None
  | c :: r =>
    if forallb isDigit k && (negb (c =? 48)%N || JsString.eqb r [])
       && (digitsToZ k <=? 4294967294)%Z
    then Some (digitsToZ k) else None
  end.

Definition isIndex {V} (p : jsstring * V) : bool :=
  match arrayIndex (fst p) with Some _ => true | None => false end.

Definition indexOf {V} (p : jsstring * V) : Z :=
  match arrayIndex (fst p) with Some i => i | None => 0%Z end.

(** [Object.entries(o)]: array-index keys first, in ascending numeric
    order, then the other keys in creation order. *)
Definition entries {V} (o : t V) : list (jsstring * V) :=
  sort (fun a b => ofZ (indexOf a - indexOf b)) (filter isIndex o)
  ++ filter (fun p => negb (isIndex p)) o.

End Obj.

(* ===================================================================== *)
(** ** Geocoding run ([geocodeAddress], [processAndSaveData]) *)
(* ===================================================================== *)

Record coords := { lat : number; lon : number }.

(** What one lookup meets inside the [try] block of [geocodeAddress]: an
    exception (from the URL encoding, the request or the JSON decoding), a
    response whose [ok] flag is false, or a decoded body.  A body is given
    by the [lat] and [lon] members of its elements; a body that is no array
    behaves as the empty one. *)
Inductive outcome :=
| Throws
| NotOk
| Json (data : list (cell * cell)).

(** The state threaded through a run: the addresses handed to
    [geocodeAddress] so far, oldest first. *)
Definition world := list jsstring.

(** [const geoCache: Record<string, {lat, lon}> = {}].  Besides its own
    properties the object has a prototype, which the assignment
    [geoCache["__proto__"] = coords] replaces by [coords]. *)
Module GeoCache.

Record t := { own : Obj.t coords; proto : option coords }.

Definition empty : t := {| own := []; proto := None |}.

Definition set (g : t) (k : jsstring) (c : coords) : t :=
  if JsString.eqb k (u "__proto__")
  then {| own := own g; proto := Some c |}
  else {| own := Obj.set (own g) k c; proto := proto g |}.

(** What [geoCache[k]] evaluates to: a coordinate pair, a truthy value that
    is none (a member inherited from the prototype chain), or a falsy
    value. *)
Inductive read :=
| Hit (c : coords)
| Foreign
| Miss.

Definition get (g : t) (k : jsstring) : read :=
  match Obj.getOwn (own g) k with
  | Some c => Hit c
  | None =>
    match proto g with
    | Some c =>
      if JsString.eqb k (u "__proto__") then Hit c
      else if JsString.eqb k (u "lat")
      then (if JsNumber.truthy (lat c) then Foreign else Miss)
      else if JsString.eqb k (u "lon")
      then (if JsNumber.truthy (lon c) then Foreign else Miss)
      else if Obj.inherited k then Foreign else Miss
    | None => if Obj.inherited k then Foreign else Miss
    end
  end.

End GeoCache.

(** [!d.latitude || !d.longitude] *)
Definition present (x : option number) : bool :=
  match x with Some n => JsNumber.truthy n | None => false end.

Definition missingCoords (d : ExcelRow) : bool :=
  negb (present (latitude d)) || negb (present (longitude d)).

(** [{ ...d, latitude: la, longitude: lo }] *)
Definition withCoords (d : ExcelRow) (la lo : option number) : ExcelRow := {|
  id := id d; project_name := project_name d; year := year d;
  month := month d; progress := progress d; address := address d;
  latitude := la; longitude := lo;
  designer := designer d; constructor := constructor d;
  product_name := product_name d; quantity := quantity d;
  spec_amount := spec_amount d
|}.

Section Run.

(** The lookup service: [service n a] is what the [n]-th lookup of the run
    meets when it asks for the address [a]. *)
Variable service : nat -> jsstring -> outcome.

(** The predicate that selects [rowsToGeocode]. *)
Variable candidate : ExcelRow -> bool.

(** [geocodeAddress] (index.tsx l. 114-130, part_000 l. 104-115) *)
Definition geocodeAddress (address : jsstring) : state world (option coords) :=
  asked <- get ;;
  put (asked ++ [address]) ;;
  ret match service (List.length asked) address with
      | Json ((la, lo) :: _) =>
        Some {| lat := parseFloat (Cell.toString la);
                lon := parseFloat (Cell.toString lo) |}
      | _ => None
      end.

(** The [for] loop over [uniqueAddresses] (pacing delays and progress
    messages left out). *)
Fixpoint geocodeLoop (uniqueAddresses : list jsstring) (geoCache : GeoCache.t)
  : state world GeoCache.t :=
  match uniqueAddresses with
  | [] => ret geoCache
  | addr :: rest =>
    found <- geocodeAddress addr ;;
    geocodeLoop rest
      match found with
      | Some c => GeoCache.set geoCache addr c
      | None => geoCache
      end
  end.

Definition merge (geoCache : GeoCache.t) (d : ExcelRow) : ExcelRow :=
  if missingCoords d then
    match GeoCache.get geoCache (address d) with
    | GeoCache.Hit c => withCoords d (Some (lat c)) (Some (lon c))
    | GeoCache.Foreign => withCoords d None None
    | GeoCache.Miss => d
    end
  else d.

Definition rowsToGeocode (rawData : list ExcelRow) : list ExcelRow :=
  filter candidate rawData.

Definition uniqueAddresses (rawData : list ExcelRow) : list jsstring :=
  unique JsString.eqb (map address (rowsToGeocode rawData)).

(** [processAndSaveData] (index.tsx l. 271-302, part_000 l. 296-327); the
    result is the value handed to [setData]. *)
Definition processAndSaveData (rawData : list ExcelRow)
  : state world (list ExcelRow) :=
  match rowsToGeocode rawData with
  | [] => ret rawData
  | _ :: _ =>
    geoCache <- geocodeLoop (uniqueAddresses rawData) GeoCache.empty ;;
    ret (map (merge geoCache) rawData)
  end.

End Run.

(* ===================================================================== *)
(** ** Views ([filteredData], [summary], [trends]) *)
(* ===================================================================== *)

(** [x || 0] *)
Definition orZero (x : number) : number :=
  if JsNumber.truthy x then x else zero.

(** [filteredData] (index.tsx l. 198-204, part_000 l. 365-371) *)
Definition filteredData (data : list ExcelRow) (selectedYear selectedMonth : number)
  : list ExcelRow :=
  filter (fun d =>
            let yearMatch := strictEq selectedYear zero
                             || strictEq (year d) selectedYear in
            let monthMatch := strictEq selectedMonth zero
                              || strictEq (month d) selectedMonth in
            yearMatch && monthMatch) data.

(** [m[k] = (m[k] || 0) + x] on a dictionary [m] created by [{}], when [k]
    is an own property or is nowhere on the prototype chain. *)
Definition accumulate (m : Obj.t number) (k : jsstring) (x : number)
  : Obj.t number :=
  Obj.set m k (add (match Obj.getOwn m k with
                    | Some v => orZero v
                    | None => zero
                    end) x).

(** What a dictionary keyed by a label holds under a key at run time.  Its
    type says [number]; but a label that is the name of a member every
    object inherits reads, the first time, as a built-in function, which
    [+] turns into text.  [Text k t] is the source text of the function
    [Object.prototype[k]] (the language leaves its wording to the
    implementation) followed by [t]. *)
Inductive tallied :=
| Amount (n : number)
| Text (member appended : jsstring).

(** ToNumber on such a value: the source text of a function is no
    numeral. *)
Definition amountOf (v : tallied) : number :=
  match v with
  | Amount n => n
  | Text _ _ => NaN
  end.

(** The same statement, [m[k] = (m[k] || 0) + x], for an arbitrary key.
    An own text is truthy and [+] appends the decimal form of [x] to it.
    A key that is not own but inherited from [Object.prototype] reads as
    a function, and the text [+] makes of it is stored as an own property;
    for [__proto__] the value read is an object, and the text [+] makes of
    it is handed to the [__proto__] setter, which ignores a string. *)
Definition bump (m : Obj.t tallied) (k : jsstring) (x : number)
  : Obj.t tallied :=
  match Obj.getOwn m k with
  | Some (Amount v) => Obj.set m k (Amount (add (orZero v) x))
  | Some (Text f t) => Obj.set m k (Text f (t ++ JsNumber.toString x))
  | None =>
    if JsString.eqb k (u "__proto__") then m
    else if Obj.inherited k then Obj.set m k (Text k (JsNumber.toString x))
    else Obj.set m k (Amount (add zero x))
  end.

(** [{ name, amount }], an entry of a top list. *)
Record entity := { name : jsstring; amount : tallied }.

(** [{ label, value }], a bar of a trend chart. *)
Record point (V : Type) := { label : jsstring; value : V }.

(** [(a, b) => b[1] - a[1]] *)
Definition byTally (a b : jsstring * tallied) : number :=
  sub (amountOf (snd b)) (amountOf (snd a)).

(** [Object.entries(m).sort((a, b) => b[1] - a[1]).slice(0, 5)].
    [Array.prototype.sort] leaves the order to the implementation when the
    comparator is not consistent, which is the case here as soon as it
    returns [NaN] for some pair of entries: when an amount is text, [NaN]
    or an infinity (whose difference with itself is [NaN]).  [None] stands
    for an order the language does not fix; with fewer than two entries
    there is nothing to order. *)
Definition topFive (m : Obj.t tallied) : option (list (jsstring * tallied)) :=
  let es := Obj.entries m in
  if (List.length es <=? 1)%nat
     || forallb (fun p => isFinite (amountOf (snd p))) es
  then Some (firstn 5 (sort byTally es))
  else None.

Record Summary := {
  siteCount : nat;
  totalSpec : number;
  top3Cons : option (list entity);
  top3Des : option (list entity)
}.

Record Trends := {
  yearTrend : list (point number);
  monthTrend : list (point number);
  designerTrend : option (list (point tallied))
}.

Definition placeholder : jsstring := u "-".
Definition catchAll : jsstring := u "기타".

(* ===================================================================== *)
(** ** Project groups ([groupedProjects]) *)
(* ===================================================================== *)

(** [{ product, quantity, amount }], a line item of a group. *)
Module Spec.
Record t := { product : jsstring; quantity : number; amount : number }.
End Spec.

(** [interface GroupedProject] *)
Module GroupedProject.
Record t := {
  name : jsstring;
  address : jsstring;
  latitude : option number;
  longitude : option number;
  designer : jsstring;
  constructor : jsstring;
  progress : jsstring;
  specs : list Spec.t;
  totalAmount : number
}.
End GroupedProject.

Section Grouping.

(** The name a record is filed under: [d.project_name] in
    [src/index.tsx], [d.project_name.trim()] in [src/unnamed/part_000]. *)
Variable key : ExcelRow -> jsstring.

(** The object stored by [groups[name] = { ... }]. *)
Definition newGroup (d : ExcelRow) : GroupedProject.t := {|
  GroupedProject.name := key d;
  GroupedProject.address := address d;
  GroupedProject.latitude := latitude d;
  GroupedProject.longitude := longitude d;
  GroupedProject.designer := designer d;
  GroupedProject.constructor := constructor d;
  GroupedProject.progress := progress d;
  GroupedProject.specs := [];
  GroupedProject.totalAmount := zero
|}.

Definition toSpec (d : ExcelRow) : Spec.t :=
  {| Spec.product := product_name d; Spec.quantity := quantity d;
     Spec.amount := spec_amount d |}.

(** [g.specs.push({ ... }); g.totalAmount += d.spec_amount] *)
Definition addSpec (g : GroupedProject.t) (d : ExcelRow) : GroupedProject.t := {|
  GroupedProject.name := GroupedProject.name g;
  GroupedProject.address := GroupedProject.address g;
  GroupedProject.latitude := GroupedProject.latitude g;
  GroupedProject.longitude := GroupedProject.longitude g;
  GroupedProject.designer := GroupedProject.designer g;
  GroupedProject.constructor := GroupedProject.constructor g;
  GroupedProject.progress := GroupedProject.progress g;
  GroupedProject.specs := GroupedProject.specs g ++ [toSpec d];
  GroupedProject.totalAmount := add (GroupedProject.totalAmount g) (spec_amount d)
|}.

(** One turn of the [forEach].  When the name is not an own property of
    [groups] but a member inherited from [Object.prototype], [!groups[name]]
    is false, no group is created, and [groups[name].specs.push] throws a
    [TypeError]: the result is [None]. *)
Definition fileRecord (groups : option (Obj.t GroupedProject.t)) (d : ExcelRow)
  : option (Obj.t GroupedProject.t) :=
  match groups with
  | None => None
  | Some gs =>
    match Obj.getOwn gs (key d) with
    | Some g => Some (Obj.set gs (key d) (addSpec g d))
    | None =>
      if Obj.inherited (key d) then None
      else Some (Obj.set gs (key d) (addSpec (newGroup d) d))
    end
  end.

(** [groupedProjects] (index.tsx l. 252-265, part_000 l. 411-425):
    [Object.values(groups)], or [None] when the loop throws. *)
Definition groupedProjectsBy (filteredData : list ExcelRow)
  : option (list GroupedProject.t) :=
  option_map (fun gs => map snd (Obj.entries gs))
             (fold_left fileRecord filteredData (Some [])).

End Grouping.

(** [p.latitude && p.longitude], the test of the map markers
    (index.tsx l. 428, part_000 l. 526). *)
Definition onMap (p : GroupedProject.t) : bool :=
  present (GroupedProject.latitude p) && present (GroupedProject.longitude p).

(* ===================================================================== *)
(** ** [src/index.tsx] *)
(* ===================================================================== *)

Module Index.

(** The record built for one row by [handleFileUpload] (l. 314-327). *)
Definition parseRow (row : rawRow) (idx : nat) : ExcelRow := {|
  id := u "row-" ++ natDigits idx;
  project_name :=
    text (getVal row [u "project_name"; u "프로젝트명"; u "현장명"; u "PJT"; u "project"]) "";
  year := parseNum (getVal row [u "year"; u "연도"; u "년"; u "년도"]);
  month := parseNum (getVal row [u "month"; u "월"]);
  progress := text (getVal row [u "progress"; u "진행내용"; u "상태"; u "status"]) "-";
  address := text (getVal row [u "address"; u "주소"; u "상세주소"; u "addr"]) "-";
  latitude :=
    orNull (parseFloat (text (getVal row
      [u "latitude"; u "위도"; u "lat"; u "y"; u "latitude_val"]) ""));
  longitude :=
    orNull (parseFloat (text (getVal row
      [u "longitude"; u "경도"; u "lng"; u "long"; u "x"; u "longitude_val"]) ""));
  designer := text (getVal row [u "designer"; u "설계사"; u "설계"]) "-";
  constructor := text (getVal row [u "constructor"; u "건설사"; u "시공사"; u "시공"]) "-";
  product_name := text (getVal row [u "product_name"; u "제품명"; u "품명"]) "-";
  quantity := parseNum (getVal row [u "quantity"; u "물량"; u "수량"]);
  spec_amount :=
    parseNum (getVal row [u "spec_amount"; u "스펙량"; u "스펙"; u "합계"; u "amount"])
|}.

(** [parsed]: [json.map((row, idx) => ...).filter(r => r.project_name)]
    (l. 314-328). *)
Definition parsed (json : list rawRow) : list ExcelRow :=
  filter (fun r => JsString.truthy (project_name r)) (mapi parseRow json).

(** The test that selects [rowsToGeocode] (l. 275). *)
Definition candidate (d : ExcelRow) : bool :=
  missingCoords d && JsString.truthy (address d)
  && negb (JsString.eqb (address d) placeholder)
  && (5 <? List.length (address d)).

Definition processAndSaveData (service : nat -> jsstring -> outcome)
  : list ExcelRow -> state world (list ExcelRow) :=
  processAndSaveData service candidate.

(** [x && x !== '-' ? x : '기타'] *)
Definition entityLabel (x : jsstring) : jsstring :=
  if JsString.truthy x && negb (JsString.eqb x placeholder) then x else catchAll.

(** One turn of the [forEach] of [summary].  [spec_amount] is a number, so
    [Number(d.spec_amount)] is [d.spec_amount]. *)
Definition tally (maps : Obj.t tallied * Obj.t tallied) (d : ExcelRow)
  : Obj.t tallied * Obj.t tallied :=
  let c := entityLabel (constructor d) in
  let ds := entityLabel (designer d) in
  (bump (fst maps) c (orZero (spec_amount d)),
   bump (snd maps) ds (orZero (spec_amount d))).

Definition toEntity (p : jsstring * tallied) : entity :=
  {| name := fst p; amount := snd p |}.

(** [summary] (l. 213-230) *)
Definition summary (filteredData : list ExcelRow) : Summary :=
  let uniqueProjects := unique JsString.eqb (map project_name filteredData) in
  let totalSpec :=
    fold_left (fun sum d => add sum (orZero (spec_amount d))) filteredData zero in
  let maps := fold_left tally filteredData ([], []) in
  {| siteCount := List.length uniqueProjects;
     totalSpec := totalSpec;
     top3Cons := option_map (map toEntity) (topFive (fst maps));
     top3Des := option_map (map toEntity) (topFive (snd maps)) |}.

(** [stats.years] (l. 188-191) *)
Definition years (data : list ExcelRow) : list number :=
  sort (fun a b => sub a b) (unique sameValueZero (map year data)).

Definition toPoint {V} (suffix : jsstring) (p : jsstring * V) : point V :=
  {| label := fst p ++ suffix; value := snd p |}.

(** [m[k] || 0] for a key that is a decimal numeral. *)
Definition valueAt (m : Obj.t number) (k : jsstring) : number :=
  match Obj.getOwn m k with Some v => orZero v | None => zero end.

(** [trends] (l. 232-250).  The keys of [yearTrendMap] and [monthTrendMap]
    are numbers turned into property names; none of them is inherited, and
    these two dictionaries hold numbers only. *)
Definition trends (data filteredData : list ExcelRow) (selectedYear : number)
  : Trends :=
  let yearTrendMap :=
    fold_left (fun m d => accumulate m (JsNumber.toString (year d)) (spec_amount d))
              data [] in
  let yearTrend :=
    map (toPoint (u "년"))
        (sort (fun a b => sub (toNumber (fst a)) (toNumber (fst b)))
              (Obj.entries yearTrendMap)) in
  let yr := if strictEq selectedYear zero
            then match rev (years data) with
                 | last :: _ => orZero last
                 | [] => zero
                 end
            else selectedYear in
  let monthTrendMap :=
    fold_left (fun m d => accumulate m (JsNumber.toString (month d)) (spec_amount d))
              (filter (fun d => strictEq (year d) yr) data) [] in
  let monthTrend :=
    map (fun i => {| label := natDigits (i + 1) ++ u "월";
                     value := valueAt monthTrendMap (natDigits (i + 1)) |})
        (seq 0 12) in
  let dMap :=
    fold_left (fun m d => bump m (entityLabel (designer d)) (spec_amount d))
              filteredData [] in
  {| yearTrend := yearTrend;
     monthTrend := monthTrend;
     designerTrend := option_map (map (toPoint [])) (topFive dMap) |}.

(** [availableMonths] (l. 193-196) *)
Definition availableMonths (data : list ExcelRow) (selectedYear : number)
  : list number :=
  let relevantData :=
    if strictEq selectedYear zero then data
    else filter (fun d => strictEq (year d) selectedYear) data in
  sort (fun a b => sub a b) (unique sameValueZero (map month relevantData)).

(** The values of [listStatusFilter]. *)
Inductive statusFilter := all | mapped | missing.

(** [listData] (l. 206-211) *)
Definition listData (filteredData : list ExcelRow) (listStatusFilter : statusFilter)
  : list ExcelRow :=
  match listStatusFilter with
  | all => filteredData
  | mapped =>
    filter (fun d => present (latitude d) && present (longitude d)) filteredData
  | missing =>
    filter (fun d => negb (present (latitude d)) || negb (present (longitude d)))
           filteredData
  end.

(** [groupedProjects] (l. 252-265) *)
Definition groupedProjects (filteredData : list ExcelRow)
  : option (list GroupedProject.t) :=
  groupedProjectsBy project_name filteredData.

(** [projectsWithNoCoords] (l. 267-269) *)
Definition projectsWithNoCoords (groupedProjects : list GroupedProject.t)
  : list GroupedProject.t :=
  filter (fun p => negb (present (GroupedProject.latitude p))
                   || negb (present (GroupedProject.longitude p)))
         groupedProjects.

End Index.

(* ===================================================================== *)
(** ** [src/unnamed/part_000] *)
(* ===================================================================== *)

Module Part000.

Section Normalise.

(** [now idx] is what [Date.now()] returns while row [idx] is built. *)
Variable now : nat -> number.

(** The record built for one row by [handleFileUpload] (l. 341-354):
    shorter alias lists than in [src/index.tsx], every text field trimmed,
    the clock appended to the identifier. *)
Definition parseRow (row : rawRow) (idx : nat) : ExcelRow := {|
  id := u "row-" ++ natDigits idx ++ u "-" ++ JsNumber.toString (now idx);
  project_name := trim (text (getVal row [u "project_name"; u "프로젝트명"; u "현장명"]) "");
  year := parseNum (getVal row [u "year"; u "연도"]);
  month := parseNum (getVal row [u "month"; u "월"]);
  progress := trim (text (getVal row [u "progress"; u "진행내용"; u "상태"]) "-");
  address := trim (text (getVal row [u "address"; u "주소"; u "상세주소"]) "-");
  latitude := orNull (parseFloat (text (getVal row [u "latitude"; u "위도"]) ""));
  longitude := orNull (parseFloat (text (getVal row [u "longitude"; u "경도"]) ""));
  designer := trim (text (getVal row [u "designer"; u "설계사"]) "-");
  constructor := trim (text (getVal row [u "constructor"; u "건설사"]) "-");
  product_name := trim (text (getVal row [u "product_name"; u "제품명"]) "-");
  quantity := parseNum (getVal row [u "quantity"; u "물량"]);
  spec_amount := parseNum (getVal row [u "spec_amount"; u "스펙량"; u "합계"])
|}.

(** [parsed] (l. 341-355) *)
Definition parsed (json : list rawRow) : list ExcelRow :=
  filter (fun r => JsString.truthy (project_name r)) (mapi parseRow json).

End Normalise.

(** The test that selects [rowsToGeocode] (l. 300): no comparison with the
    placeholder in this variant. *)
Definition candidate (d : ExcelRow) : bool :=
  missingCoords d && JsString.truthy (address d)
  && (5 <? List.length (address d)).

Definition processAndSaveData (service : nat -> jsstring -> outcome)
  : list ExcelRow -> state world (list ExcelRow) :=
  processAndSaveData service candidate.

(** [x || '기타'] *)
Definition entityLabel (x : jsstring) : jsstring :=
  if JsString.truthy x then x else catchAll.

Definition tally (maps : Obj.t tallied * Obj.t tallied) (d : ExcelRow)
  : Obj.t tallied * Obj.t tallied :=
  let c := entityLabel (constructor d) in
  let ds := entityLabel (designer d) in
  (bump (fst maps) c (orZero (spec_amount d)),
   bump (snd maps) ds (orZero (spec_amount d))).

(** [summary] (l. 373-390) *)
Definition summary (filteredData : list ExcelRow) : Summary :=
  let uniqueProjects := unique JsString.eqb (map project_name filteredData) in
  let totalSpec :=
    fold_left (fun sum d => add sum (orZero (spec_amount d))) filteredData zero in
  let maps := fold_left tally filteredData ([], []) in
  {| siteCount := List.length uniqueProjects;
     totalSpec := totalSpec;
     top3Cons := option_map (map Index.toEntity) (topFive (fst maps));
     top3Des := option_map (map Index.toEntity) (topFive (snd maps)) |}.

(** [groupedProjects] (l. 411-425) *)
Definition groupedProjects (filteredData : list ExcelRow)
  : option (list GroupedProject.t) :=
  groupedProjectsBy (fun d => trim (project_name d)) filteredData.

End Part000.

(* ===================================================================== *)
(** ** Vocabulary of the statements *)
(* ===================================================================== *)

(** [Before l a b]: some occurrence of [a] in [l] precedes some occurrence
    of [b]. *)
Definition Before {A} (l : list A) (a b : A) : Prop :=
  exists l1 l2 l3, l = l1 ++ a :: l2 ++ b :: l3.

(** [metBefore labels a b]: reading [labels] from the left, [a] is met
    before any [b], and [b] is met later. *)
Definition metBefore (labels : list jsstring) (a b : jsstring) : Prop :=
  exists l1 l2, labels = l1 ++ a :: l2 /\ ~ In b l1 /\ In b l2.

Definition expOf (n : number) : Z :=
  match n with Dec _ e => e | _ => 0%Z end.

(** The mantissa of a finite number at the exponent [E]. *)
Definition valAt (E : Z) (n : number) : Z :=
  match n with Dec m e => scaled m e E | _ => 0%Z end.

(** The comparator [(a, b) => b[1] - a[1]] on entries with finite amounts. *)
Definition byAmount (a b : jsstring * number) : number := sub (snd b) (snd a).

Definition finiteAmount (p : jsstring * number) : Prop := isFinite (snd p) = true.

Definition byIndex {V} (a b : jsstring * V) : number :=
  ofZ (Obj.indexOf a - Obj.indexOf b).

(** The sum of a list of doubles, added from the left, starting at [0]. *)
Definition sumOf (vs : list number) : number := fold_left add vs zero.

(** The dictionary after the loop: one [accumulate] per record. *)
Definition tallyBy (lab : ExcelRow -> jsstring) (x : ExcelRow -> number)
  (fd : list ExcelRow) (m : Obj.t number) : Obj.t number :=
  fold_left (fun m d => accumulate m (lab d) (x d)) fd m.

(** What the loop leaves under one label: the running total of the
    amounts it met there, in order. *)
Definition runningStep (acc : option number) (v : number) : option number :=
  Some (add (match acc with Some s => orZero s | None => zero end) v).

Definition runningTotal (start : option number) (vs : list number)
  : option number :=
  fold_left runningStep vs start.

(** The records that carry the label [k]. *)
Definition labelled (lab : ExcelRow -> jsstring) (k : jsstring)
  (fd : list ExcelRow) : list ExcelRow :=
  filter (fun d => JsString.eqb (lab d) k) fd.

(** The dictionary [summary] builds for one field, as long as it holds
    numbers only. *)
Definition ledger (lab : ExcelRow -> jsstring) (fd : list ExcelRow)
  : Obj.t number :=
  tallyBy lab (fun d => orZero (spec_amount d)) fd [].

(** A dictionary of numbers as a dictionary of run-time values. *)
Definition amounts (m : Obj.t number) : Obj.t tallied :=
  map (fun p => (fst p, Amount (snd p))) m.

Definition entityOf (p : jsstring * number) : entity :=
  {| name := fst p; amount := Amount (snd p) |}.

(** The first five entries in descending order of amount. *)
Definition ranked (m : Obj.t number) : list (jsstring * number) :=
  firstn 5 (sort byAmount (Obj.entries m)).

(** The labels under which [summary] of [src/index.tsx] counts a record. *)
Definition constructorLabel (d : ExcelRow) : jsstring :=
  Index.entityLabel (constructor d).

Definition designerLabel (d : ExcelRow) : jsstring :=
  Index.entityLabel (designer d).

(** [rankingOf lab fd top]: [top] holds the first five entries of a list
    [R] that has one entry per label met in [fd], each with the sum of
    the amounts met under that label (added as doubles, in the order of
    the records), in descending order of amount;
    where two amounts are equal, array-index names come first, in
    ascending numeric order, and the other names follow in the order in
    which they were first met. *)
Definition rankingOf (lab : ExcelRow -> jsstring) (fd : list ExcelRow)
  (top : list entity) : Prop :=
  exists R : list entity,
    top = firstn 5 R
    /\ NoDup (map name R)
    /\ (forall k, In k (map name R) <-> exists d, In d fd /\ lab d = k)
    /\ (forall e, In e R ->
          amount e
          = Amount (sumOf (map (fun d => orZero (spec_amount d))
                               (labelled lab (name e) fd))))
    /\ StronglySorted
         (fun a b => geb (amountOf (amount a)) (amountOf (amount b)) = true) R
    /\ (forall a b, Before R a b ->
          strictEq (amountOf (amount a)) (amountOf (amount b)) = true ->
          match Obj.arrayIndex (name a), Obj.arrayIndex (name b) with
          | Some i, Some j => (i <= j)%Z
          | Some _, None => True
          | None, Some _ => False
          | None, None => metBefore (map lab fd) (name a) (name b)
          end).

(** The rows of a sheet with their positions. *)
Definition numbered {A} (l : list A) : list (nat * A) :=
  combine (seq 0 (List.length l)) l.

(** The cell a row's project name is read from, and the name it is coerced
    to: [String(cell || '')] in [src/index.tsx], the same trimmed in
    [src/unnamed/part_000]. *)
Definition indexNameCell (row : rawRow) : cell :=
  getVal row [u "project_name"; u "프로젝트명"; u "현장명"; u "PJT"; u "project"].

Definition indexName (row : rawRow) : jsstring := text (indexNameCell row) "".

Definition part000NameCell (row : rawRow) : cell :=
  getVal row [u "project_name"; u "프로젝트명"; u "현장명"].

Definition part000Name (row : rawRow) : jsstring :=
  trim (text (part000NameCell row) "").

(** One turn of the loop of [groupedProjects] when nothing throws. *)
Definition fileOk (key : ExcelRow -> jsstring) (gs : Obj.t GroupedProject.t)
  (d : ExcelRow) : Obj.t GroupedProject.t :=
  Obj.set gs (key d)
    (addSpec (match Obj.getOwn gs (key d) with
              | Some g => g
              | None => newGroup key d
              end) d).

(** What that loop leaves under one name. *)
Definition groupStep (key : ExcelRow -> jsstring)
  (acc : option GroupedProject.t) (d : ExcelRow) : option GroupedProject.t :=
  Some (addSpec (match acc with Some g => g | None => newGroup key d end) d).

(* ===================================================================== *)
(** ** Sample inputs *)
(* ===================================================================== *)

(** A row with Korean headers, a unit in the month and amount cells, and
    no address, designer or constructor. *)
Definition demoRow : rawRow :=
  [ (u "현장명", Str (u "서울 데이터센터 A")); (u "연도", Num (Dec 2024 0));
    (u "월", Str (u "5월")); (u "위도", Num (Dec 375665 (-4)));
    (u "경도", Str (u "126.9780")); (u "합계", Str (u "1,200 Ton")) ].

(** Scenario A: the 현장명 cell is empty, or missing from the row object. *)
Definition scenarioA : rawRow :=
  [ (u "현장명", Str []); (u "연도", Num (Dec 2024 0)); (u "월", Num (Dec 5 0));
    (u "위도", Num (Dec 375665 (-4))); (u "경도", Num (Dec 126978 (-3)));
    (u "합계", Num (Dec 1200 0)) ].

Definition scenarioA' : rawRow :=
  [ (u "연도", Num (Dec 2024 0)); (u "월", Num (Dec 5 0));
    (u "위도", Num (Dec 375665 (-4))); (u "경도", Num (Dec 126978 (-3)));
    (u "합계", Num (Dec 1200 0)) ].

(** A row whose 현장명 cell holds two spaces. *)
Definition blankName : rawRow :=
  [ (u "현장명", Str (u "  ")); (u "합계", Num (Dec 1200 0)) ].

(** A latitude that parses next to a longitude that does not. *)
Definition halfRow : rawRow :=
  [ (u "현장명", Str (u "P")); (u "주소", Str (u "Seoul City Hall"));
    (u "위도", Str (u "37.5")); (u "경도", Str (u "n/a")) ].

(** Records on the equator or the prime meridian. *)
Definition zeroRow : rawRow :=
  [ (u "현장명", Str (u "Null Island")); (u "위도", Str (u "0"));
    (u "경도", Num (Dec 0 0)) ].

Definition equatorRow : rawRow :=
  [ (u "현장명", Str (u "Equator")); (u "주소", Str (u "Quito, Ecuador"));
    (u "위도", Str (u "0.0")); (u "경도", Str (u "-78.5")) ].


(** Candidate records that share one address, and a service that always
    answers with one hit. *)
Definition cityHall (i : nat) : ExcelRow := {|
  id := u "row-" ++ natDigits i; project_name := u "P"; year := Dec 2024 0;
  month := Dec 5 0; progress := u "-"; address := u "Seoul City Hall";
  latitude := None; longitude := None; designer := u "-"; constructor := u "-";
  product_name := u "-"; quantity := zero; spec_amount := Dec 100 0 |}.

Definition seoul (n : nat) (a : jsstring) : outcome :=
  Json [(Str (u "37.5665"), Str (u "126.9780"))].

(** Scenario F: A is met first and ties with B at 300; C has 100. *)
Definition scenarioF : list ExcelRow :=
  map (fun p : string * Z =>
         {| id := u "row"; project_name := u "P"; year := Dec 2024 0;
            month := Dec 5 0; progress := u "-"; address := u "-";
            latitude := None; longitude := None; designer := u "-";
            constructor := u (fst p); product_name := u "-"; quantity := zero;
            spec_amount := Dec (snd p) 0 |})
      [("A"%string, 100%Z); ("B"%string, 300%Z); ("C"%string, 100%Z);
       ("A"%string, 200%Z)].

(** One record whose constructor is named [toString] and whose designer
    is named [__proto__]. *)
Definition inheritedLabels : list ExcelRow :=
  [ {| id := u "row-0"; project_name := u "P"; year := Dec 2024 0;
       month := Dec 5 0; progress := u "-"; address := u "-";
       latitude := None; longitude := None; designer := u "__proto__";
       constructor := u "toString"; product_name := u "-"; quantity := zero;
       spec_amount := Dec 100 0 |} ].

(** B with 0.3, then A with 0.1 and with 0.2. *)
Definition roundedSums : list ExcelRow :=
  map (fun p : string * Z =>
         {| id := u "row"; project_name := u "P"; year := Dec 2024 0;
            month := Dec 5 0; progress := u "-"; address := u "-";
            latitude := None; longitude := None; designer := u "-";
            constructor := u (fst p); product_name := u "-"; quantity := zero;
            spec_amount := Dec (snd p) (-1) |})
      [("B"%string, 3%Z); ("A"%string, 1%Z); ("A"%string, 2%Z)].

(** Two constructors with equal sums, the second named by a numeral. *)
Definition numberedNames : list ExcelRow :=
  map (fun p : string * Z =>
         {| id := u "row"; project_name := u "P"; year := Dec 2024 0;
            month := Dec 5 0; progress := u "-"; address := u "-";
            latitude := None; longitude := None; designer := u "-";
            constructor := u (fst p); product_name := u "-"; quantity := zero;
            spec_amount := Dec (snd p) 0 |})
      [("B"%string, 300%Z); ("7"%string, 300%Z)].

(** Three line items of two sites. *)
Definition siteLines : list ExcelRow :=
  map (fun p : string * string * Z =>
         {| id := u "row"; project_name := u (fst (fst p)); year := Dec 2024 0;
            month := Dec 5 0; progress := u "-"; address := u "-";
            latitude := None; longitude := None; designer := u "-";
            constructor := u "-"; product_name := u (snd (fst p));
            quantity := Dec 1 0; spec_amount := Dec (snd p) 0 |})
      [("Alpha"%string, "beam"%string, 100%Z);
       ("Beta"%string, "deck"%string, 300%Z);
       ("Alpha"%string, "column"%string, 200%Z)].

(** A record with a latitude and no longitude whose address cell reads
    [hasOwnProperty]. *)
Definition oddAddress : ExcelRow := {|
  id := u "row-0"; project_name := u "P"; year := Dec 2024 0;
  month := Dec 5 0; progress := u "-"; address := u "hasOwnProperty";
  latitude := Some (Dec 375 (-1)); longitude := None; designer := u "-";
  constructor := u "-"; product_name := u "-"; quantity := zero;
  spec_amount := Dec 100 0 |}.

(* ===================================================================== *)
(** * Properties *)
(* ===================================================================== *)

(** ** Sample evaluations *)

Example utf16_hangul :
  utf16 "현장명" = [54788; 51109; 47749]%N /\ utf16 "row-" = [114; 111; 119; 45]%N.
Proof. split; reflexivity. Qed.

Example parseFloat_samples :
  parseFloat (utf16 "37.5665") = Dec 375665 (-4)
  /\ parseFloat (utf16 "  -12.5e3kg") = Dec (-125) 2
  /\ parseFloat (utf16 "5.") = Dec 5 0
  /\ parseFloat (utf16 ".5") = Dec 5 (-1)
  /\ parseFloat (utf16 "1.2.3") = Dec 12 (-1)
  /\ parseFloat (utf16 "1e") = Dec 1 0
  /\ parseFloat (utf16 ".") = NaN
  /\ parseFloat (utf16 "") = NaN
  /\ parseFloat (utf16 "abc") = NaN
  /\ parseFloat (utf16 "-Infinity") = Infinity true.
Proof. repeat split; reflexivity. Qed.

Example toString_samples :
  toString (Dec 375665 (-4)) = utf16 "37.5665"
  /\ toString (Dec 2024 0) = utf16 "2024"
  /\ toString (Dec 1500 (-2)) = utf16 "15"
  /\ toString (Dec (-5) (-1)) = utf16 "-0.5"
  /\ toString (Dec 123 (-9)) = utf16 "1.23e-7"
  /\ toString (Dec 1 21) = utf16 "1e+21"
  /\ toString (Dec 12 19) = utf16 "120000000000000000000"
  /\ toString (Dec 5 (-6)) = utf16 "0.000005"
  /\ toString (Dec 0 7) = utf16 "0".
Proof. repeat split; reflexivity. Qed.

Example toNumber_samples :
  toNumber (utf16 " 2024 ") = Dec 2024 0
  /\ toNumber (utf16 "") = zero
  /\ toNumber (utf16 "12px") = NaN
  /\ toNumber (utf16 "0x1F") = Dec 31 0
  /\ toNumber (utf16 "NaN") = NaN.
Proof. repeat split; reflexivity. Qed.

Example entries_order :
  Obj.entries [(u "B", 1); (u "10", 2); (u "A", 3); (u "7", 4); (u "07", 5)]
  = [(u "7", 4); (u "10", 2); (u "B", 1); (u "A", 3); (u "07", 5)].
Proof. reflexivity. Qed.

Example demoRow_parsed :
  Index.parsed [demoRow] =
  [ {| id := u "row-0"; project_name := u "서울 데이터센터 A";
       year := Dec 2024 0; month := Dec 5 0; progress := u "-"; address := u "-";
       latitude := Some (Dec 375665 (-4)); longitude := Some (Dec 1269780 (-4));
       designer := u "-"; constructor := u "-"; product_name := u "-";
       quantity := zero; spec_amount := Dec 1200 0 |} ].
Proof. reflexivity. Qed.

(** ** Strings *)

Lemma eqb_eq a b : JsString.eqb a b = true <-> a = b.
Proof. unfold JsString.eqb; destruct (list_eq_dec N.eq_dec a b); split; congruence. Qed.

Lemma eqb_refl a : JsString.eqb a a = true.
Proof. now apply eqb_eq. Qed.

Lemma eqb_neq a b : JsString.eqb a b = false <-> a <> b.
Proof. unfold JsString.eqb; destruct (list_eq_dec N.eq_dec a b); split; congruence. Qed.

(** ** Numbers *)




(** ** Number values *)


(** What rounding returns: zero, an infinity of the sign of the decimal,
    or a decimal of that sign with a mantissa that is not [0]. *)
Lemma roundDec_cases m e :
  roundDec m e = zero \/ roundDec m e = Infinity (m <? 0)%Z
  \/ exists M t, (0 < M)%Z /\ roundDec m e = Dec (signed (m <? 0)%Z M) t.
Proof.
  unfold roundDec.
  destruct (m =? 0)%Z; [now left |].
  destruct (310 <=? e + digitCount (Z.abs m))%Z; [now right; left |].
  destruct (e + digitCount (Z.abs m) <=? -325)%Z; [now left |].
  destruct (doubleOf (Z.abs m) e) as [[k x] |]; [| now right; left].
  destruct (expansion k x) as [M E].
  destruct (shortestFrom 17 1 (k, x) M E (digitCount M)) as [s t].
  destruct (Z.eqb_spec s 0) as [Hs | Hs]; [now left |].
  right. right.
  destruct ((0 <? t) && (t + digitCount s <=? 21))%Z eqn:Ht.
  - exists (Z.abs s * 10 ^ t)%Z, 0%Z. split; [| reflexivity].
    apply andb_true_iff in Ht. destruct Ht as [Ht _]. apply Z.ltb_lt in Ht.
    assert (0 < 10 ^ t)%Z by (apply Z.pow_pos_nonneg; lia). nia.
  - exists (Z.abs s), t. split; [lia | reflexivity].
Qed.

Lemma numberValue_cases m e :
  numberValue (Dec m e) = zero
  \/ (m <> 0%Z /\ numberValue (Dec m e) = Dec m e)
  \/ numberValue (Dec m e) = Infinity (m <? 0)%Z
  \/ exists M t, (0 < M)%Z /\ numberValue (Dec m e) = Dec (signed (m <? 0)%Z M) t.
Proof.
  unfold numberValue.
  destruct (Z.eqb_spec m 0) as [Hm | Hm]; [now left |].
  destruct (short m e); [right; left; now split |].
  destruct (roundDec_cases m e) as [H | [H | H]]; tauto.
Qed.

Lemma numberValue_isNaN n : isNaN (numberValue n) = isNaN n.
Proof.
  destruct n as [| neg | m e]; try reflexivity.
  destruct (numberValue_cases m e) as [H | [[_ H] | [H | (M & t & _ & H)]]];
    now rewrite H.
Qed.

Lemma numberValue_finite n : isFinite (numberValue n) = true -> isFinite n = true.
Proof. now destruct n. Qed.


(** A number value that is falsy without being [NaN] is written [0]. *)
Lemma numberValue_falsy n :
  JsNumber.truthy (numberValue n) = false ->
  numberValue n = zero \/ numberValue n = NaN.
Proof.
  destruct n as [| neg | m e]; [now right | discriminate |].
  destruct (numberValue_cases m e) as [E | [[Hm E] | [E | (M & t & HM & E)]]];
    rewrite E; [now left | | discriminate |].
  - cbn [JsNumber.truthy]. destruct (Z.eqb_spec m 0); [congruence | discriminate].
  - cbn [JsNumber.truthy]. intros H. exfalso.
    destruct (Z.eqb_spec (signed (m <? 0)%Z M) 0) as [H0 | H0]; [| discriminate].
    unfold signed in H0. destruct (m <? 0)%Z; lia.
Qed.

Lemma numberValue_short m e :
  short m e = true -> numberValue (Dec m e) = if (m =? 0)%Z then zero else Dec m e.
Proof. intros H. unfold numberValue. now rewrite H. Qed.

(** ** Sums of doubles *)

Lemma exactAdd_finite_inv x y :
  isFinite (exactAdd x y) = true -> isFinite x = true /\ isFinite y = true.
Proof.
  destruct x as [| s | m1 e1], y as [| t | m2 e2]; cbn; try discriminate;
    [destruct (Bool.eqb s t); discriminate | now split].
Qed.

Lemma exactDouble_finite_inv n : isFinite (exactDouble n) = true -> isFinite n = true.
Proof. now destruct n. Qed.

(** A sum is finite only if both summands are. *)
Lemma add_finite_inv a b :
  isFinite (add a b) = true -> isFinite a = true /\ isFinite b = true.
Proof.
  unfold add. intros H. apply numberValue_finite, exactAdd_finite_inv in H.
  destruct H as [Ha Hb]. split; now apply exactDouble_finite_inv.
Qed.

(** A finite sum that is falsy is written [0]: [(s || 0)] leaves it as it
    is. *)
Lemma orZero_add a b : isFinite (add a b) = true -> orZero (add a b) = add a b.
Proof.
  intros H. unfold orZero.
  destruct (JsNumber.truthy (add a b)) eqn:T; [reflexivity |].
  unfold add in *. destruct (numberValue_falsy _ T) as [E | E]; rewrite E in *;
    [reflexivity | discriminate].
Qed.

Lemma fold_add_finite vs : forall a,
  isFinite (fold_left add vs a) = true -> isFinite a = true.
Proof.
  induction vs as [| v r IH]; intros a H; [exact H |].
  cbn [fold_left] in H. apply IH in H. now apply add_finite_inv in H.
Qed.

(** ** Numeric literals *)


Lemma digitVal_nonneg c : isDigit c = true -> (0 <= digitVal c)%Z.
Proof.
  unfold isDigit, digitVal. rewrite andb_true_iff, !N.leb_le. lia.
Qed.

Lemma digitsToZ_from_nonneg ds : Forall (fun c => isDigit c = true) ds ->
  forall acc, (0 <= acc)%Z ->
  (0 <= fold_left (fun a d => a * 10 + digitVal d) ds acc)%Z.
Proof.
  induction 1 as [| c r Hc _ IH]; intros acc Hacc; simpl; [assumption |].
  apply IH. pose proof (digitVal_nonneg _ Hc). lia.
Qed.

Lemma digitsToZ_nonneg ds :
  Forall (fun c => isDigit c = true) ds -> (0 <= digitsToZ ds)%Z.
Proof. intros H. apply digitsToZ_from_nonneg; [assumption | lia]. Qed.

Lemma signPart_unsigned s :
  (forall c r, s = c :: r -> c <> 45%N /\ c <> 43%N) -> signPart s = (false, s).
Proof.
  intros Hs. destruct s as [| c r]; [reflexivity |].
  destruct (Hs c r eq_refl) as [H1 H2]. unfold signPart.
  destruct c as [| p]; [reflexivity |].
  do 6 (destruct p as [p | p |]; try reflexivity); congruence.
Qed.





(** ** [parseNum] *)

Lemma parseNum_text s :
  parseNum (Str s) = zero
  \/ (parseNum (Str s) = parseFloat (filter numUnit s)
      /\ isNaN (parseFloat (filter numUnit s)) = false).
Proof.
  destruct s as [| c r]; [now left |].
  unfold parseNum. cbn [Cell.toString].
  destruct (isNaN (parseFloat (filter numUnit (c :: r)))) eqn:H; [now left |].
  right. now split.
Qed.

Lemma parseNum_bool b : parseNum (Bool b) = zero.
Proof. destruct b; reflexivity. Qed.


Lemma geb_not_NaN a b : geb a b = true -> isNaN a = false.
Proof. destruct a; [discriminate | reflexivity | reflexivity]. Qed.

(** C2, as the code has it.  [parseNum] is a total function of the cell.
    For every input other than the number [NaN] its result is not [NaN];
    an absent or empty input gives [0], a number is returned as it is, and a
    string whose digits and points do not parse gives [0]. *)
Theorem parseNum_not_NaN (v : cell) :
  v <> Num NaN ->
  isNaN (parseNum v) = false
  /\ (v = Undefined \/ v = Null \/ v = Str [] -> parseNum v = zero)
  /\ (forall n, v = Num n -> parseNum v = n)
  /\ (forall s, v = Str s ->
      isNaN (parseFloat (filter numUnit s)) = true -> parseNum v = zero).
Proof.
  intros Hv. repeat split.
  - destruct v as [| | b | n | s]; try reflexivity.
    + now rewrite parseNum_bool.
    + destruct n; [congruence | reflexivity | reflexivity].
    + destruct (parseNum_text s) as [-> | [-> H]]; [reflexivity | exact H].
  - intros [-> | [-> | ->]]; reflexivity.
  - intros n ->; reflexivity.
  - intros s -> H.
    destruct (parseNum_text s) as [E | [_ E]]; [exact E | congruence].
Qed.

Lemma parseNum_not_NaN_witness :
  isNaN (parseNum (Str (u "1,200 Ton"))) = false
  /\ parseNum (Str (u "1,200 Ton")) = Dec 1200 0
  /\ parseNum (Str (u "n/a")) = zero.
Proof.
  assert (H : Str (u "1,200 Ton") <> Num NaN) by discriminate.
  assert (H' : Str (u "n/a") <> Num NaN) by discriminate.
  split; [exact (proj1 (parseNum_not_NaN H)) |].
  split; [reflexivity |].
  exact (proj2 (proj2 (proj2 (parseNum_not_NaN H'))) (u "n/a") eq_refl eq_refl).
Defined.

(** C2 as stated fails on a [NaN] cell, which the numeric branch hands
    back unchanged. *)
Lemma parseNum_NaN_passes_through :
  parseNum (Num NaN) = NaN /\ isNaN (parseNum (Num NaN)) = true.
Proof. split; reflexivity. Qed.




(** ** The normaliser *)

Lemma orNull_None x : orNull x = None <-> JsNumber.truthy x = false.
Proof. unfold orNull; destruct (JsNumber.truthy x); split; congruence. Qed.

Lemma orNull_Some x : JsNumber.truthy x = true -> orNull x = Some x.
Proof. unfold orNull; now intros ->. Qed.

Lemma present_orNull x : present (orNull x) = JsNumber.truthy x.
Proof. unfold orNull; destruct (JsNumber.truthy x) eqn:H; simpl; congruence. Qed.

Lemma sign_zero_falsy x : sign x = Some Eq -> JsNumber.truthy x = false.
Proof.
  destruct x as [| s | m e]; simpl; [discriminate | destruct s; discriminate |].
  intros H. injection H as H. apply Z.compare_eq in H. now subst.
Qed.

Lemma truthy_nonempty (s : jsstring) : JsString.truthy s = true <-> s <> [].
Proof. destruct s; simpl; split; congruence. Qed.

Lemma In_mapiFrom {A B} (f : A -> nat -> B) l : forall i b,
  In b (mapiFrom f i l) <->
  exists k a, nth_error l k = Some a /\ b = f a (i + k).
Proof.
  induction l as [| x r IH]; intros i b; simpl.
  - split; [tauto | intros (k & a & H & _); destruct k; discriminate].
  - rewrite IH. split.
    + intros [<- | (k & a & H & ->)].
      * exists 0, x. rewrite Nat.add_0_r. now split.
      * exists (S k), a. rewrite Nat.add_succ_r. now split.
    + intros (k & a & H & ->). destruct k as [| k]; simpl in H.
      * left. injection H as ->. now rewrite Nat.add_0_r.
      * right. exists k, a. rewrite Nat.add_succ_r. now split.
Qed.

Lemma In_mapi {A B} (f : A -> nat -> B) l b :
  In b (mapi f l) <-> exists k a, nth_error l k = Some a /\ b = f a k.
Proof. unfold mapi. now rewrite In_mapiFrom. Qed.

Section Normalised.

Variable parseRow : rawRow -> nat -> ExcelRow.

Lemma parsed_In json r :
  In r (filter (fun r => JsString.truthy (project_name r)) (mapi parseRow json)) <->
  exists idx row, nth_error json idx = Some row /\ r = parseRow row idx
                  /\ project_name r <> [].
Proof.
  rewrite filter_In, In_mapi, truthy_nonempty. split.
  - intros [(k & a & H & ->) Hn]. now exists k, a.
  - intros (k & a & H & -> & Hn). split; [now exists k, a | assumption].
Qed.

End Normalised.

Lemma filter_map_commute {A B} (f : A -> B) (p : B -> bool) (q : A -> bool) l :
  (forall a, p (f a) = q a) -> filter p (map f l) = map f (filter q l).
Proof.
  intros H. induction l as [| x r IH]; cbn; [reflexivity |].
  rewrite H. destruct (q x); cbn; now rewrite IH.
Qed.

Lemma mapiFrom_numbered {A B} (f : A -> nat -> B) l : forall i,
  mapiFrom f i l
  = map (fun p => f (snd p) (fst p)) (combine (seq i (List.length l)) l).
Proof.
  induction l as [| a r IH]; intros i; cbn; [reflexivity |]. now rewrite IH.
Qed.

Lemma filter_numbered_length {A} (keep : A -> bool) (l : list A) : forall i,
  List.length (filter (fun p => keep (snd p)) (combine (seq i (List.length l)) l))
  = List.length (filter keep l).
Proof.
  induction l as [| a r IH]; intros i; cbn; [reflexivity |].
  destruct (keep a); cbn; now rewrite IH.
Qed.

(** C3, as the code has it.  In both variants the name of a record is the
    coerced name cell of its row: [String(cell || '')] in [src/index.tsx],
    the same trimmed in [src/unnamed/part_000].  The records of a sheet
    are the records of the rows whose coerced name is not the empty
    string, in the order of the rows, one per such row and each built
    from that row at its position, and nothing else removes a row.  The
    coerced name is empty when the cell is missing or falsy; a text cell is
    coerced to itself (trimmed).  A batch whose only row has an empty (or
    missing) 현장명 cell gives no record. *)
Theorem dropped_iff_name_empty (now : nat -> number) (json : list rawRow) :
  (forall row idx,
     project_name (Index.parseRow row idx) = indexName row
     /\ project_name (Part000.parseRow now row idx) = part000Name row)
  /\ Index.parsed json
     = map (fun p => Index.parseRow (snd p) (fst p))
           (filter (fun p => JsString.truthy (indexName (snd p))) (numbered json))
  /\ Part000.parsed now json
     = map (fun p => Part000.parseRow now (snd p) (fst p))
           (filter (fun p => JsString.truthy (part000Name (snd p)))
                   (numbered json))
  /\ (forall idx row, nth_error json idx = Some row ->
        (In (Index.parseRow row idx) (Index.parsed json) <-> indexName row <> [])
        /\ (In (Part000.parseRow now row idx) (Part000.parsed now json)
            <-> part000Name row <> []))
  /\ List.length (Index.parsed json)
     = List.length (filter (fun row => JsString.truthy (indexName row)) json)
  /\ List.length (Part000.parsed now json)
     = List.length (filter (fun row => JsString.truthy (part000Name row)) json)
  /\ (forall row,
        (Cell.truthy (indexNameCell row) = false -> indexName row = [])
        /\ (forall s, indexNameCell row = Str s -> indexName row = s)
        /\ (Cell.truthy (part000NameCell row) = false -> part000Name row = [])
        /\ (forall s, part000NameCell row = Str s -> part000Name row = trim s))
  /\ Index.parsed [scenarioA] = [] /\ Index.parsed [scenarioA'] = []
  /\ Part000.parsed now [scenarioA] = [] /\ Part000.parsed now [scenarioA'] = [].
Proof.
  assert (HI : Index.parsed json
               = map (fun p => Index.parseRow (snd p) (fst p))
                     (filter (fun p => JsString.truthy (indexName (snd p)))
                             (numbered json))).
  { unfold Index.parsed, mapi, numbered. rewrite mapiFrom_numbered.
    now apply filter_map_commute. }
  assert (HP : Part000.parsed now json
               = map (fun p => Part000.parseRow now (snd p) (fst p))
                     (filter (fun p => JsString.truthy (part000Name (snd p)))
                             (numbered json))).
  { unfold Part000.parsed, mapi, numbered. rewrite mapiFrom_numbered.
    now apply filter_map_commute. }
  split; [intros row idx; split; reflexivity |].
  split; [exact HI |]. split; [exact HP |].
  split; [| split; [| split; [| split]]].
  - intros idx row Hn. split.
    + unfold Index.parsed. rewrite (parsed_In Index.parseRow). split.
      * intros (i & r & _ & _ & Hne). exact Hne.
      * intros Hne. now exists idx, row.
    + unfold Part000.parsed. rewrite (parsed_In (Part000.parseRow now)). split.
      * intros (i & r & _ & _ & Hne). exact Hne.
      * intros Hne. now exists idx, row.
  - rewrite HI, length_map. unfold numbered.
    apply (filter_numbered_length (fun row => JsString.truthy (indexName row))).
  - rewrite HP, length_map. unfold numbered.
    apply (filter_numbered_length (fun row => JsString.truthy (part000Name row))).
  - intros row. unfold indexName, part000Name, text, Cell.orElse.
    split; [intros ->; reflexivity |].
    split; [intros s ->; cbn; now destruct s |].
    split; [intros ->; reflexivity |].
    intros s ->. cbn. now destruct s.
  - repeat split; reflexivity.
Qed.

Lemma dropped_iff_name_empty_witness :
  In (Index.parseRow demoRow 1) (Index.parsed [scenarioA; demoRow])
  /\ List.length (Index.parsed [scenarioA; demoRow]) = 1.
Proof.
  destruct (dropped_iff_name_empty (fun _ => zero) [scenarioA; demoRow])
    as (_ & _ & _ & Hin & Hlen & _).
  split.
  - apply (proj1 (Hin 1 demoRow eq_refl)). discriminate.
  - rewrite Hlen. reflexivity.
Defined.

(** C3 as stated, one rule for both variants, fails on a name of white
    space only: the name cell is not empty and trims to the empty string;
    [src/index.tsx] keeps the record, with that name, and
    [src/unnamed/part_000] drops the row. *)
Lemma blank_name_kept_and_dropped :
  indexNameCell blankName = Str (u "  ")
  /\ part000NameCell blankName = Str (u "  ")
  /\ u "  " <> [] /\ trim (u "  ") = []
  /\ map project_name (Index.parsed [blankName]) = [u "  "]
  /\ (forall now, Part000.parsed now [blankName] = []).
Proof.
  split; [reflexivity |]. split; [reflexivity |]. split; [discriminate |].
  split; [reflexivity |]. split; [reflexivity |]. intros now. reflexivity.
Qed.

(** C1, as the code has it.  Each coordinate of a record is decided by its
    own cell alone: the latitude is [null] exactly when the latitude cell is
    missing, does not parse, or parses to [0] or [NaN], whatever the
    longitude cell holds, and the same goes for the longitude; a coordinate
    that is not [null] is the parsed number. *)
Theorem coordinates_parsed_separately
  (now : nat -> number) (json : list rawRow) (r : ExcelRow) :
  (In r (Index.parsed json) ->
   exists idx row, nth_error json idx = Some row /\
     let la := parseFloat (text (getVal row
                 [u "latitude"; u "위도"; u "lat"; u "y"; u "latitude_val"]) "") in
     let lo := parseFloat (text (getVal row
                 [u "longitude"; u "경도"; u "lng"; u "long"; u "x";
                  u "longitude_val"]) "") in
     (latitude r = None <-> JsNumber.truthy la = false)
     /\ (longitude r = None <-> JsNumber.truthy lo = false)
     /\ (JsNumber.truthy la = true -> latitude r = Some la)
     /\ (JsNumber.truthy lo = true -> longitude r = Some lo))
  /\ (In r (Part000.parsed now json) ->
   exists idx row, nth_error json idx = Some row /\
     let la := parseFloat (text (getVal row [u "latitude"; u "위도"]) "") in
     let lo := parseFloat (text (getVal row [u "longitude"; u "경도"]) "") in
     (latitude r = None <-> JsNumber.truthy la = false)
     /\ (longitude r = None <-> JsNumber.truthy lo = false)
     /\ (JsNumber.truthy la = true -> latitude r = Some la)
     /\ (JsNumber.truthy lo = true -> longitude r = Some lo)).
Proof.
  split; intros H.
  - apply (parsed_In Index.parseRow) in H. destruct H as (idx & row & Hn & -> & _).
    exists idx, row. split; [assumption |]. cbn [latitude longitude Index.parseRow].
    repeat split; try apply orNull_None; try apply orNull_Some;
      try (apply orNull_None; assumption); assumption.
  - apply (parsed_In (Part000.parseRow now)) in H.
    destruct H as (idx & row & Hn & -> & _).
    exists idx, row. split; [assumption |].
    cbn [latitude longitude Part000.parseRow].
    repeat split; try apply orNull_None; try apply orNull_Some;
      try (apply orNull_None; assumption); assumption.
Qed.

Lemma coordinates_parsed_separately_witness :
  exists idx row, nth_error [demoRow] idx = Some row /\
    latitude (Index.parseRow demoRow 0)
    = Some (parseFloat (text (getVal row
        [u "latitude"; u "위도"; u "lat"; u "y"; u "latitude_val"]) "")).
Proof.
  destruct (proj1 (coordinates_parsed_separately (fun _ => zero) [demoRow]
                     (Index.parseRow demoRow 0)))
    as (idx & row & Hn & _ & _ & Hla & _).
  - left. reflexivity.
  - exists idx, row. split; [exact Hn |].
    destruct idx as [| idx]; [| destruct idx; discriminate].
    injection Hn as <-. apply Hla. reflexivity.
Defined.

(** C1 as stated fails: a row whose latitude parses and whose longitude
    does not yields a record with a latitude and no longitude. *)
Lemma latitude_without_longitude :
  let r := Index.parseRow halfRow 0 in
  let r' := Part000.parseRow (fun _ => zero) halfRow 0 in
  In r (Index.parsed [halfRow])
  /\ latitude r = Some (Dec 375 (-1)) /\ longitude r = None
  /\ ~ (latitude r = None <-> longitude r = None)
  /\ In r' (Part000.parsed (fun _ => zero) [halfRow])
  /\ ~ (latitude r' = None <-> longitude r' = None).
Proof.
  repeat split; try (vm_compute; auto; fail);
    intros [_ H]; specialize (H eq_refl); discriminate H.
Qed.

(** ** Candidates for geocoding *)

Lemma length_gt_5 (s : jsstring) :
  (5 <? List.length s) = true ->
  JsString.truthy s = true /\ JsString.eqb s placeholder = false.
Proof.
  rewrite Nat.ltb_lt. intros H. split.
  - destruct s; [simpl in H; lia | reflexivity].
  - apply eqb_neq. intros ->. vm_compute in H. lia.
Qed.

Lemma missingCoords_iff d :
  missingCoords d = true <->
  present (latitude d) = false \/ present (longitude d) = false.
Proof.
  unfold missingCoords. rewrite orb_true_iff, !negb_true_iff. tauto.
Qed.

Lemma Index_candidate_iff d :
  Index.candidate d = true <->
  (present (latitude d) = false \/ present (longitude d) = false)
  /\ address d <> placeholder /\ 5 < List.length (address d).
Proof.
  unfold Index.candidate.
  rewrite !andb_true_iff, negb_true_iff, eqb_neq, Nat.ltb_lt,
    missingCoords_iff.
  split; [tauto |]. intros (H1 & H2 & H3). repeat split; try assumption.
  apply length_gt_5. now apply Nat.ltb_lt.
Qed.

Lemma Part000_candidate_iff d :
  Part000.candidate d = true <->
  (present (latitude d) = false \/ present (longitude d) = false)
  /\ address d <> placeholder /\ 5 < List.length (address d).
Proof.
  unfold Part000.candidate.
  rewrite !andb_true_iff, Nat.ltb_lt, missingCoords_iff.
  split.
  - intros [[H1 H2] H3]. repeat split; try assumption.
    apply eqb_neq, length_gt_5. now apply Nat.ltb_lt.
  - intros (H1 & H2 & H3). repeat split; try assumption.
    apply length_gt_5. now apply Nat.ltb_lt.
Qed.

(** C9, as the code has it.  A coordinate cell that parses to the number
    [0] is stored as [null]; the record then counts as lacking coordinates,
    and it is a geocoding candidate exactly when its address is not the
    placeholder and is longer than five code units. *)
Theorem zero_coordinate_stored_as_null
  (now : nat -> number) (row : rawRow) (idx : nat) :
  let r := Index.parseRow row idx in
  let r' := Part000.parseRow now row idx in
  let la := parseFloat (text (getVal row
              [u "latitude"; u "위도"; u "lat"; u "y"; u "latitude_val"]) "") in
  let lo := parseFloat (text (getVal row
              [u "longitude"; u "경도"; u "lng"; u "long"; u "x";
               u "longitude_val"]) "") in
  let la' := parseFloat (text (getVal row [u "latitude"; u "위도"]) "") in
  let lo' := parseFloat (text (getVal row [u "longitude"; u "경도"]) "") in
  (sign la = Some Eq -> latitude r = None)
  /\ (sign lo = Some Eq -> longitude r = None)
  /\ (sign la' = Some Eq -> latitude r' = None)
  /\ (sign lo' = Some Eq -> longitude r' = None)
  /\ (sign la = Some Eq \/ sign lo = Some Eq ->
      missingCoords r = true
      /\ (Index.candidate r = true <->
          address r <> placeholder /\ 5 < List.length (address r))).
Proof.
  intros r r' la lo la' lo'.
  assert (Hla : sign la = Some Eq -> latitude r = None)
    by (intros H; apply orNull_None, sign_zero_falsy, H).
  assert (Hlo : sign lo = Some Eq -> longitude r = None)
    by (intros H; apply orNull_None, sign_zero_falsy, H).
  split; [exact Hla |]. split; [exact Hlo |].
  split; [intros H; apply orNull_None, sign_zero_falsy, H |].
  split; [intros H; apply orNull_None, sign_zero_falsy, H |].
  intros H.
  assert (Hm : present (latitude r) = false \/ present (longitude r) = false).
  { destruct H as [H | H]; [left; rewrite (Hla H) | right; rewrite (Hlo H)];
      reflexivity. }
  split; [now apply missingCoords_iff |].
  rewrite Index_candidate_iff. tauto.
Qed.

Lemma zero_coordinate_stored_as_null_witness :
  latitude (Index.parseRow equatorRow 0) = None
  /\ Index.candidate (Index.parseRow equatorRow 0) = true.
Proof.
  pose proof (zero_coordinate_stored_as_null (fun _ => zero) equatorRow 0) as H.
  cbv zeta in H. destruct H as (Hla & _ & _ & _ & Hc).
  split; [apply Hla; reflexivity |].
  apply Hc; [left; reflexivity |]. split; [discriminate | vm_compute; lia].
Defined.

(** C9 as stated fails: a record at latitude 0 whose row carries no usable
    address lacks coordinates and yet is no geocoding candidate. *)
Lemma zero_coordinate_not_candidate :
  let r := Index.parseRow zeroRow 0 in
  In r (Index.parsed [zeroRow])
  /\ latitude r = None /\ longitude r = None
  /\ missingCoords r = true /\ Index.candidate r = false.
Proof. repeat split; vm_compute; auto. Qed.

(** ** Distinct elements *)

Section Unique.

Variable A : Type.
Variable eqb : A -> A -> bool.
Hypothesis eqb_spec : forall a b, eqb a b = true <-> a = b.

Lemma existsb_eqb x l : existsb (eqb x) l = true <-> In x l.
Proof.
  rewrite existsb_exists. split.
  - intros (y & Hy & E). apply eqb_spec in E. now subst.
  - intros H. exists x. split; [assumption | now apply eqb_spec].
Qed.

Lemma uniqueFrom_In l : forall seen x,
  In x (uniqueFrom eqb seen l) <-> In x l /\ ~ In x seen.
Proof.
  induction l as [| y r IH]; intros seen x; simpl; [tauto |].
  destruct (existsb (eqb y) seen) eqn:E.
  - apply existsb_eqb in E. rewrite IH. split; [tauto |].
    intros [[-> | H] Hn]; tauto.
  - assert (Hy : ~ In y seen) by (rewrite <- existsb_eqb; congruence).
    simpl. rewrite IH. simpl. split.
    + intros [-> | [H Hn]]; tauto.
    + intros [[-> | H] Hn]; [now left |].
      destruct (eqb y x) eqn:Eyx; [apply eqb_spec in Eyx; now left |].
      right. split; [assumption |]. intros [-> | H']; [| tauto].
      assert (eqb x x = true) by now apply eqb_spec. congruence.
Qed.

Lemma uniqueFrom_NoDup l : forall seen, NoDup (uniqueFrom eqb seen l).
Proof.
  induction l as [| y r IH]; intros seen; simpl; [constructor |].
  destruct (existsb (eqb y) seen); [apply IH |].
  constructor; [| apply IH]. rewrite uniqueFrom_In. simpl. tauto.
Qed.

Lemma unique_In l x : In x (unique eqb l) <-> In x l.
Proof. unfold unique. rewrite uniqueFrom_In. simpl. tauto. Qed.

Lemma unique_NoDup l : NoDup (unique eqb l).
Proof. apply uniqueFrom_NoDup. Qed.

Lemma unique_constant l a :
  l <> [] -> (forall x, In x l -> x = a) -> unique eqb l = [a].
Proof.
  intros Hl Ha.
  pose proof (unique_NoDup l) as Hnd.
  assert (Hin : forall x, In x (unique eqb l) -> x = a)
    by (intros x Hx; apply Ha; now apply unique_In).
  assert (Hne : unique eqb l <> []).
  { destruct l as [| y r]; [congruence |]. intros E.
    assert (H : In y (unique eqb (y :: r))) by (apply unique_In; now left).
    rewrite E in H. destruct H. }
  destruct (unique eqb l) as [| x [| y r]]; [congruence | |].
  - now rewrite (Hin x (or_introl eq_refl)).
  - exfalso. inversion Hnd as [| ? ? Hx _]; subst. apply Hx. left.
    rewrite (Hin x), (Hin y); simpl; auto.
Qed.

End Unique.

(** ** The geocoding run *)

Section RunFacts.

Variable service : nat -> jsstring -> outcome.
Variable candidate : ExcelRow -> bool.

Lemma geocodeLoop_asked addrs : forall geoCache w,
  snd (runState (geocodeLoop service addrs geoCache) w) = w ++ addrs.
Proof.
  induction addrs as [| a r IH]; intros geoCache w; simpl.
  - now rewrite app_nil_r.
  - rewrite IH, <- app_assoc. reflexivity.
Qed.

Lemma processAndSaveData_asked rawData w :
  snd (runState (processAndSaveData service candidate rawData) w)
  = w ++ uniqueAddresses candidate rawData.
Proof.
  unfold processAndSaveData, uniqueAddresses.
  destruct (rowsToGeocode candidate rawData) as [| d r] eqn:E.
  - simpl. now rewrite app_nil_r.
  - cbn [bind Monad_state runState].
    pose proof (geocodeLoop_asked (unique JsString.eqb (map address (d :: r)))
                  GeoCache.empty w) as H.
    destruct (runState (geocodeLoop service
                (unique JsString.eqb (map address (d :: r))) GeoCache.empty) w)
      as [geoCache w'].
    exact H.
Qed.

Lemma uniqueAddresses_In rawData a :
  In a (uniqueAddresses candidate rawData) <->
  exists d, In d rawData /\ candidate d = true /\ address d = a.
Proof.
  unfold uniqueAddresses, rowsToGeocode.
  rewrite (unique_In _ eqb_eq), in_map_iff. split.
  - intros (d & E & H). apply filter_In in H. exists d. tauto.
  - intros (d & H & Hc & E). exists d. rewrite filter_In. tauto.
Qed.

Lemma uniqueAddresses_shared rawData a :
  rowsToGeocode candidate rawData <> [] ->
  (forall d, In d (rowsToGeocode candidate rawData) -> address d = a) ->
  uniqueAddresses candidate rawData = [a].
Proof.
  intros Hne Ha. unfold uniqueAddresses.
  apply (unique_constant _ eqb_eq).
  - destruct (rowsToGeocode candidate rawData); [congruence | discriminate].
  - intros x Hx. apply in_map_iff in Hx. destruct Hx as (d & <- & Hd). now apply Ha.
Qed.

End RunFacts.

Lemma present_None_orNull x : present (orNull x) = false <-> orNull x = None.
Proof. rewrite present_orNull, orNull_None. tauto. Qed.

(** C4, as the code has it.  A record is a geocoding candidate exactly
    when its latitude or its longitude is absent (for a record that comes
    from the normaliser: is [null]), its address is not the placeholder
    and its address is longer than five code units.  A run asks the
    geocoder for the addresses of candidates only. *)
Theorem candidate_iff_some_coordinate_absent
  (service : nat -> jsstring -> outcome) (now : nat -> number)
  (rawData : list ExcelRow) (w : world) (d : ExcelRow) :
  (Index.candidate d = true <->
     (present (latitude d) = false \/ present (longitude d) = false)
     /\ address d <> placeholder /\ 5 < List.length (address d))
  /\ (Part000.candidate d = true <->
     (present (latitude d) = false \/ present (longitude d) = false)
     /\ address d <> placeholder /\ 5 < List.length (address d))
  /\ (forall json, In d (Index.parsed json) \/ In d (Part000.parsed now json) ->
      (present (latitude d) = false <-> latitude d = None)
      /\ (present (longitude d) = false <-> longitude d = None))
  /\ (exists asked,
        snd (runState (Index.processAndSaveData service rawData) w) = w ++ asked
        /\ forall a, In a asked ->
           exists c, In c rawData /\ Index.candidate c = true /\ address c = a)
  /\ (exists asked,
        snd (runState (Part000.processAndSaveData service rawData) w) = w ++ asked
        /\ forall a, In a asked ->
           exists c, In c rawData /\ Part000.candidate c = true /\ address c = a).
Proof.
  split; [apply Index_candidate_iff |].
  split; [apply Part000_candidate_iff |].
  split.
  - intros json [H | H].
    + apply (parsed_In Index.parseRow) in H. destruct H as (i & row & _ & -> & _).
      split; apply present_None_orNull.
    + apply (parsed_In (Part000.parseRow now)) in H.
      destruct H as (i & row & _ & -> & _).
      split; apply present_None_orNull.
  - split.
    + exists (uniqueAddresses Index.candidate rawData).
      split; [apply processAndSaveData_asked |].
      intros a Ha. now apply uniqueAddresses_In.
    + exists (uniqueAddresses Part000.candidate rawData).
      split; [apply processAndSaveData_asked |].
      intros a Ha. now apply uniqueAddresses_In.
Qed.

Lemma candidate_iff_some_coordinate_absent_witness :
  Index.candidate (Index.parseRow equatorRow 0) = true.
Proof.
  apply (proj1 (candidate_iff_some_coordinate_absent
                  (fun _ _ => Throws) (fun _ => zero) [] []
                  (Index.parseRow equatorRow 0))).
  split; [left; reflexivity |]. split; [discriminate | vm_compute; lia].
Defined.

(** C4 as stated fails: a record with a latitude and no longitude is a
    candidate although not both coordinates are absent. *)
Lemma candidate_with_latitude :
  let r := Index.parseRow halfRow 0 in
  In r (Index.parsed [halfRow])
  /\ Index.candidate r = true
  /\ ~ (latitude r = None /\ longitude r = None).
Proof.
  repeat split; try (vm_compute; auto; fail).
  intros [H _]. discriminate H.
Qed.

(** C5.  Whatever the geocoding service answers, one run hands each
    distinct candidate address to the geocoder exactly once, and no other
    address: the lookups of the run are the distinct candidate addresses
    without repetition.  When the candidate rows, however many, all share
    one address, the run makes exactly one lookup. *)
Theorem one_lookup_per_distinct_address
  (service : nat -> jsstring -> outcome) (rawData : list ExcelRow) (w : world) :
  let asked := uniqueAddresses Index.candidate rawData in
  let asked' := uniqueAddresses Part000.candidate rawData in
  snd (runState (Index.processAndSaveData service rawData) w) = w ++ asked
  /\ NoDup asked
  /\ (forall a, In a asked <->
        exists d, In d rawData /\ Index.candidate d = true /\ address d = a)
  /\ (forall a, rowsToGeocode Index.candidate rawData <> [] ->
        (forall d, In d (rowsToGeocode Index.candidate rawData) -> address d = a) ->
        asked = [a])
  /\ snd (runState (Part000.processAndSaveData service rawData) w) = w ++ asked'
  /\ NoDup asked'
  /\ (forall a, In a asked' <->
        exists d, In d rawData /\ Part000.candidate d = true /\ address d = a)
  /\ (forall a, rowsToGeocode Part000.candidate rawData <> [] ->
        (forall d, In d (rowsToGeocode Part000.candidate rawData) -> address d = a) ->
        asked' = [a]).
Proof.
  intros asked asked'.
  split; [apply processAndSaveData_asked |].
  split; [apply (unique_NoDup _ eqb_eq) |].
  split; [intros a; apply uniqueAddresses_In |].
  split; [intros a; apply uniqueAddresses_shared |].
  split; [apply processAndSaveData_asked |].
  split; [apply (unique_NoDup _ eqb_eq) |].
  split; [intros a; apply uniqueAddresses_In |].
  intros a; apply uniqueAddresses_shared.
Qed.

Lemma one_lookup_per_distinct_address_witness :
  snd (runState (Index.processAndSaveData seoul (map cityHall (seq 0 4))) [])
  = [u "Seoul City Hall"].
Proof.
  destruct (one_lookup_per_distinct_address seoul (map cityHall (seq 0 4)) [])
    as (Hlog & _ & _ & Hone & _).
  rewrite Hlog. simpl app. apply Hone.
  - discriminate.
  - intros d Hd. apply filter_In in Hd. destruct Hd as [Hd _].
    apply in_map_iff in Hd. destruct Hd as (i & <- & _). reflexivity.
Defined.

Example run_fills_coordinates :
  map (fun d => (latitude d, longitude d))
      (fst (runState (Index.processAndSaveData seoul (map cityHall (seq 0 2))) []))
  = [ (Some (Dec 375665 (-4)), Some (Dec 1269780 (-4)));
      (Some (Dec 375665 (-4)), Some (Dec 1269780 (-4))) ].
Proof. reflexivity. Qed.

(** ** The views on an empty record set *)

(** C8, as the code has it.  On an empty record set, whatever the filters,
    the aggregation returns normally: no record passes the filter, the
    summary counts no project, totals [0] and ranks nobody, the year trend
    and the designer trend are empty, and the month trend is the twelve
    month buckets, each with value [0]. *)
Theorem aggregation_of_empty_set (selectedYear selectedMonth : number) :
  filteredData [] selectedYear selectedMonth = []
  /\ Index.summary [] =
     {| siteCount := 0; totalSpec := zero;
        top3Cons := Some []; top3Des := Some [] |}
  /\ Index.trends [] [] selectedYear =
     {| yearTrend := [];
        monthTrend := map (fun i => {| label := natDigits (i + 1) ++ u "월";
                                       value := zero |}) (seq 0 12);
        designerTrend := Some [] |}.
Proof.
  split; [reflexivity |]. split; reflexivity.
Qed.

(** C8 as stated fails for the month trend, which always has twelve
    entries. *)
Lemma month_trend_of_empty_set :
  List.length (monthTrend (Index.trends [] [] zero)) = 12.
Proof. reflexivity. Qed.

(** A label that names a member of [Object.prototype]: the summary is
    computed all the same; the amount listed under [toString] is text, the
    source text of that function followed by [100], and nothing is listed
    under [__proto__]. *)
Example summary_of_inherited_labels :
  Index.summary inheritedLabels
  = {| siteCount := 1; totalSpec := Dec 100 0;
       top3Cons := Some [ {| name := u "toString";
                             amount := Text (u "toString") (u "100") |} ];
       top3Des := Some [] |}.
Proof. vm_compute. reflexivity. Qed.

(** ** The two variants of [summary] *)

Lemma fold_left_ext_in {A B} (f g : A -> B -> A) l :
  (forall a b, In b l -> f a b = g a b) ->
  forall a, fold_left f l a = fold_left g l a.
Proof.
  induction l as [| b r IH]; intros H a; simpl; [reflexivity |].
  rewrite (H a b (or_introl eq_refl)). apply IH.
  intros a' b' Hb. apply H. now right.
Qed.

Lemma entityLabel_agree x :
  x <> placeholder -> Index.entityLabel x = Part000.entityLabel x.
Proof.
  intros H. unfold Index.entityLabel, Part000.entityLabel.
  apply eqb_neq in H. rewrite H.
  destruct (JsString.truthy x); reflexivity.
Qed.

(** Away from the placeholder the two variants compute the same summary. *)
Lemma summaries_agree_without_placeholder (filteredData : list ExcelRow) :
  (forall d, In d filteredData ->
     constructor d <> placeholder /\ designer d <> placeholder) ->
  Index.summary filteredData = Part000.summary filteredData.
Proof.
  intros H. unfold Index.summary, Part000.summary.
  rewrite (fold_left_ext_in Index.tally Part000.tally filteredData); [reflexivity |].
  intros maps d Hd. destruct (H d Hd) as [Hc Hs].
  unfold Index.tally, Part000.tally.
  now rewrite (entityLabel_agree Hc), (entityLabel_agree Hs).
Qed.

(** C10 at a record whose constructor and designer are the placeholder
    (what the normaliser stores for a row without these cells):
    [src/index.tsx] ranks it under 기타, [src/unnamed/part_000] under "-". *)
Theorem summaries_differ_on_placeholder :
  let filteredData := [Index.parseRow demoRow 0] in
  constructor (Index.parseRow demoRow 0) = placeholder
  /\ (forall now, constructor (Part000.parseRow now demoRow 0) = placeholder)
  /\ top3Cons (Index.summary filteredData)
     = Some [{| name := catchAll; amount := Amount (Dec 1200 0) |}]
  /\ top3Cons (Part000.summary filteredData)
     = Some [{| name := placeholder; amount := Amount (Dec 1200 0) |}]
  /\ top3Des (Index.summary filteredData)
     = Some [{| name := catchAll; amount := Amount (Dec 1200 0) |}]
  /\ top3Des (Part000.summary filteredData)
     = Some [{| name := placeholder; amount := Amount (Dec 1200 0) |}]
  /\ Index.summary filteredData <> Part000.summary filteredData.
Proof.
  cbv zeta.
  assert (HI : top3Cons (Index.summary [Index.parseRow demoRow 0])
               = Some [{| name := catchAll; amount := Amount (Dec 1200 0) |}])
    by (vm_compute; reflexivity).
  assert (HP : top3Cons (Part000.summary [Index.parseRow demoRow 0])
               = Some [{| name := placeholder; amount := Amount (Dec 1200 0) |}])
    by (vm_compute; reflexivity).
  split; [vm_compute; reflexivity |].
  split; [intros now; reflexivity |].
  split; [exact HI |]. split; [exact HP |].
  split; [vm_compute; reflexivity |]. split; [vm_compute; reflexivity |].
  intros E. rewrite E, HP in HI. discriminate HI.
Qed.

(** ** Stable sorting *)

Lemma Before_cons {A} (x : A) l a b : Before l a b -> Before (x :: l) a b.
Proof. intros (l1 & l2 & l3 & ->). now exists (x :: l1), l2, l3. Qed.

Lemma Before_head {A} (x : A) l b : In b l -> Before (x :: l) x b.
Proof.
  intros H. apply in_split in H. destruct H as (l2 & l3 & ->).
  now exists [], l2, l3.
Qed.

Lemma Before_cons_inv {A} (x : A) l a b :
  Before (x :: l) a b -> (a = x /\ In b l) \/ Before l a b.
Proof.
  intros (l1 & l2 & l3 & E). destruct l1 as [| y l1]; simpl in E.
  - injection E as -> ->. left. split; [reflexivity |].
    apply in_or_app. right. now left.
  - injection E as -> ->. right. now exists l1, l2, l3.
Qed.

Lemma Before_In {A} (l : list A) a b : Before l a b -> In a l /\ In b l.
Proof.
  intros (l1 & l2 & l3 & ->). split; apply in_or_app; right.
  - now left.
  - right. apply in_or_app. right. now left.
Qed.

Lemma Before_app_inv {A} (l l' : list A) a b :
  Before (l ++ l') a b ->
  Before l a b \/ (In a l /\ In b l') \/ Before l' a b.
Proof.
  induction l as [| x r IH]; simpl; intros H; [tauto |].
  apply Before_cons_inv in H. destruct H as [[-> H] | H].
  - apply in_app_or in H. destruct H as [H | H].
    + left. now apply Before_head.
    + right. left. split; [now left | assumption].
  - destruct (IH H) as [H1 | [[H1 H2] | H1]].
    + left. now apply Before_cons.
    + right. left. split; [now right | assumption].
    + now right; right.
Qed.

Lemma Before_filter {A} (p : A -> bool) l a b :
  Before (filter p l) a b -> Before l a b.
Proof.
  induction l as [| x r IH]; simpl; intros H.
  - destruct H as (l1 & l2 & l3 & E). destruct l1; discriminate.
  - destruct (p x).
    + apply Before_cons_inv in H. destruct H as [[-> H] | H].
      * apply Before_head. now apply filter_In in H.
      * apply Before_cons. now apply IH.
    + apply Before_cons. now apply IH.
Qed.

Lemma Before_firstn {A} n (l : list A) a b :
  Before (firstn n l) a b -> Before l a b.
Proof.
  intros (l1 & l2 & l3 & E). rewrite <- (firstn_skipn n l), E.
  exists l1, l2, (l3 ++ skipn n l).
  rewrite <- app_assoc. simpl. rewrite <- app_assoc. reflexivity.
Qed.

Lemma Before_map {A B} (f : A -> B) l a b :
  Before (map f l) a b ->
  exists a' b', a = f a' /\ b = f b' /\ Before l a' b'.
Proof.
  intros (l1 & l2 & l3 & E).
  apply map_eq_app in E. destruct E as (m1 & m' & -> & <- & E).
  apply map_eq_cons in E. destruct E as (a' & m'' & -> & <- & E).
  apply map_eq_app in E. destruct E as (m2 & m3' & -> & <- & E).
  apply map_eq_cons in E. destruct E as (b' & m3 & -> & <- & <-).
  exists a', b'. repeat split. now exists m1, m2, m3.
Qed.

Lemma StronglySorted_Before {A} (R : A -> A -> Prop) l a b :
  StronglySorted R l -> Before l a b -> R a b.
Proof.
  induction 1 as [| x r Hs IH Hx]; intros H.
  - destruct H as (l1 & l2 & l3 & E). destruct l1; discriminate.
  - apply Before_cons_inv in H. destruct H as [[-> H] | H]; [| now apply IH].
    rewrite Forall_forall in Hx. now apply Hx.
Qed.

Lemma StronglySorted_firstn {A} (R : A -> A -> Prop) n l :
  StronglySorted R l -> StronglySorted R (firstn n l).
Proof.
  intros H. revert n. induction H as [| x r Hs IH Hx]; intros [| n]; simpl;
    try constructor; [apply IH |].
  rewrite Forall_forall in *. intros y Hy. apply Hx.
  rewrite <- (firstn_skipn n r). apply in_or_app. now left.
Qed.

Section SortFacts.

Variable A : Type.
Variable compareFn : A -> A -> number.

(** The elements on which [compareFn] is a consistent comparator. *)
Variable P : A -> Prop.
Hypothesis after_asym : forall a b,
  P a -> P b -> after compareFn a b = true -> after compareFn b a = false.
Hypothesis stays_trans : forall a b c,
  P a -> P b -> P c -> after compareFn a b = false ->
  after compareFn b c = false -> after compareFn a c = false.

Lemma insert_In x l z : In z (insert compareFn x l) <-> z = x \/ In z l.
Proof.
  induction l as [| y r IH]; simpl; [intuition congruence |].
  destruct (after compareFn x y); simpl; rewrite ?IH; intuition congruence.
Qed.

Lemma sort_In l z : In z (sort compareFn l) <-> In z l.
Proof.
  induction l as [| x r IH]; simpl; [tauto |].
  rewrite insert_In, IH. intuition congruence.
Qed.

Lemma sort_length l : List.length (sort compareFn l) = List.length l.
Proof.
  assert (Hi : forall x s, List.length (insert compareFn x s) = S (List.length s)).
  { intros x s. induction s as [| y r IH]; simpl; [reflexivity |].
    destruct (after compareFn x y); simpl; now rewrite ?IH. }
  induction l as [| x r IH]; simpl; [reflexivity |]. now rewrite Hi, IH.
Qed.

Lemma sort_NoDup l : NoDup l -> NoDup (sort compareFn l).
Proof.
  assert (Hi : forall x s, ~ In x s -> NoDup s -> NoDup (insert compareFn x s)).
  { intros x s. induction s as [| y r IH]; simpl; intros Hx Hs.
    - constructor; [tauto | constructor].
    - inversion Hs as [| ? ? Hy Hr]; subst.
      destruct (after compareFn x y).
      + constructor; [| apply IH; tauto]. rewrite insert_In. intuition congruence.
      + constructor; [simpl; tauto | assumption]. }
  induction 1 as [| x r Hx Hr IH]; simpl; [constructor |].
  apply Hi; [now rewrite sort_In | assumption].
Qed.

Lemma insert_sorted x l :
  P x -> Forall P l ->
  StronglySorted (fun a b => after compareFn a b = false) l ->
  StronglySorted (fun a b => after compareFn a b = false) (insert compareFn x l).
Proof.
  intros Px Pl Hs. induction Hs as [| y r Hs IH Hy]; simpl.
  - constructor; constructor.
  - inversion Pl as [| ? ? Py Pr]; subst.
    specialize (IH Pr). rewrite Forall_forall in Hy, Pr.
    destruct (after compareFn x y) eqn:E.
    + constructor; [exact IH |]. apply Forall_forall. intros z Hz.
      apply insert_In in Hz. destruct Hz as [-> | Hz]; [| now apply Hy].
      now apply after_asym.
    + constructor; [now constructor; [| apply Forall_forall] |].
      constructor; [assumption |]. apply Forall_forall. intros z Hz.
      apply stays_trans with y; auto.
Qed.

Lemma sort_sorted l :
  Forall P l -> StronglySorted (fun a b => after compareFn a b = false) (sort compareFn l).
Proof.
  induction 1 as [| x r Px Pr IH]; simpl; [constructor |].
  apply insert_sorted; try assumption.
  apply Forall_forall. intros z Hz. rewrite sort_In in Hz.
  rewrite Forall_forall in Pr. apply Pr, Hz.
Qed.

Lemma insert_Before x l a b :
  Before (insert compareFn x l) a b ->
  Before l a b \/ (a = x /\ In b l) \/ (b = x /\ after compareFn x a = true).
Proof.
  induction l as [| y r IH]; simpl; intros H.
  - apply Before_cons_inv in H. destruct H as [[_ []] | H].
    destruct H as (l1 & l2 & l3 & E). destruct l1; discriminate.
  - destruct (after compareFn x y) eqn:E.
    + apply Before_cons_inv in H. destruct H as [[-> H] | H].
      * apply insert_In in H. destruct H as [-> | H]; [now right; right |].
        left. now apply Before_head.
      * destruct (IH H) as [H1 | [[-> H1] | H1]].
        -- left. now apply Before_cons.
        -- right. left. split; [reflexivity | now right].
        -- now right; right.
    + apply Before_cons_inv in H. destruct H as [[-> H] | H]; [| now left].
      right. left. now split.
Qed.

(** Stability: an element listed first without being strictly ahead was
    already first in the input. *)
Lemma sort_stable l a b :
  Before (sort compareFn l) a b -> after compareFn b a = false -> Before l a b.
Proof.
  induction l as [| x r IH]; simpl; intros H Hab.
  - destruct H as (l1 & l2 & l3 & E). destruct l1; discriminate.
  - apply insert_Before in H. destruct H as [H | [[-> H] | [-> H]]].
    + apply Before_cons. now apply IH.
    + apply Before_head. now rewrite sort_In in H.
    + congruence.
Qed.

End SortFacts.

(** ** The order of finite numbers *)

Lemma scaled_shift m e E E0 :
  (E0 <= E <= e)%Z -> scaled m e E0 = (scaled m e E * 10 ^ (E - E0))%Z.
Proof.
  intros H. unfold scaled. rewrite <- Z.mul_assoc, <- Z.pow_add_r by lia.
  do 2 f_equal. lia.
Qed.

Lemma mul_compare_pos x y p : (0 < p -> (x * p ?= y * p) = (x ?= y))%Z.
Proof.
  intros Hp. destruct (Z.compare_spec x y) as [-> | H | H].
  - apply Z.compare_refl.
  - apply Z.compare_lt_iff. nia.
  - apply Z.compare_gt_iff. nia.
Qed.

Lemma compare_finite a b E :
  isFinite a = true -> isFinite b = true ->
  (E <= expOf a)%Z -> (E <= expOf b)%Z ->
  JsNumber.compare a b = Some (valAt E a ?= valAt E b)%Z.
Proof.
  destruct a as [| | m1 e1]; try discriminate.
  destruct b as [| | m2 e2]; try discriminate.
  simpl. intros _ _ H1 H2. f_equal.
  rewrite (scaled_shift m1 (E := Z.min e1 e2) (E0 := E)) by lia.
  rewrite (scaled_shift m2 (E := Z.min e1 e2) (E0 := E)) by lia.
  symmetry. apply mul_compare_pos. apply Z.pow_pos_nonneg; lia.
Qed.

Lemma sign_sub a b :
  isFinite a = true -> isFinite b = true ->
  sign (sub b a) = JsNumber.compare b a.
Proof.
  destruct a as [| | m1 e1]; try discriminate.
  destruct b as [| | m2 e2]; try discriminate.
  intros _ _. simpl. f_equal. unfold scaled.
  rewrite (Z.compare_sub (m2 * _)). f_equal. ring.
Qed.

Lemma after_byAmount a b :
  finiteAmount a -> finiteAmount b ->
  after byAmount a b = negb (geb (snd a) (snd b)).
Proof.
  intros Ha Hb. unfold after, byAmount, geb. rewrite (sign_sub _ _ Ha Hb).
  set (E := Z.min (expOf (snd a)) (expOf (snd b))).
  rewrite (compare_finite _ _ (E := E) Hb Ha), (compare_finite _ _ (E := E) Ha Hb)
    by (unfold E; lia).
  rewrite (Z.compare_antisym (valAt E (snd b))).
  destruct (valAt E (snd b) ?= valAt E (snd a))%Z; reflexivity.
Qed.

Lemma geb_finite a b E :
  isFinite a = true -> isFinite b = true ->
  (E <= expOf a)%Z -> (E <= expOf b)%Z ->
  geb a b = true <-> (valAt E b <= valAt E a)%Z.
Proof.
  intros Ha Hb H1 H2. unfold geb. rewrite (compare_finite _ _ (E := E) Ha Hb H1 H2).
  destruct (Z.compare_spec (valAt E a) (valAt E b)); split; try lia; congruence.
Qed.

Lemma byAmount_asym a b :
  finiteAmount a -> finiteAmount b ->
  after byAmount a b = true -> after byAmount b a = false.
Proof.
  intros Ha Hb. rewrite (after_byAmount Ha Hb), (after_byAmount Hb Ha).
  rewrite negb_true_iff, negb_false_iff.
  set (E := Z.min (expOf (snd a)) (expOf (snd b))).
  intros H. apply (geb_finite _ _ (E := E) Hb Ha); [unfold E; lia .. |].
  destruct (geb (snd a) (snd b)) eqn:G; [discriminate |].
  assert (~ (valAt E (snd b) <= valAt E (snd a))%Z); [| lia].
  rewrite <- (geb_finite _ _ (E := E) Ha Hb) by (unfold E; lia). congruence.
Qed.

Lemma byAmount_trans a b c :
  finiteAmount a -> finiteAmount b -> finiteAmount c ->
  after byAmount a b = false -> after byAmount b c = false ->
  after byAmount a c = false.
Proof.
  intros Ha Hb Hc.
  rewrite (after_byAmount Ha Hb), (after_byAmount Hb Hc), (after_byAmount Ha Hc).
  rewrite !negb_false_iff.
  set (E := Z.min (expOf (snd a)) (Z.min (expOf (snd b)) (expOf (snd c)))).
  rewrite (geb_finite _ _ (E := E) Ha Hb), (geb_finite _ _ (E := E) Hb Hc),
    (geb_finite _ _ (E := E) Ha Hc) by (unfold E; lia).
  lia.
Qed.

Lemma strictEq_geb a b : strictEq a b = true -> geb b a = true.
Proof.
  unfold strictEq, geb.
  destruct a as [| s | m1 e1], b as [| t | m2 e2]; simpl; try discriminate.
  - destruct s, t; simpl; congruence.
  - destruct s; discriminate.
  - destruct t; discriminate.
  - rewrite (Z.min_comm e2 e1), (Z.compare_antisym (scaled m1 e1 _)).
    destruct (scaled m1 e1 (Z.min e1 e2) ?= scaled m2 e2 (Z.min e1 e2))%Z;
      simpl; congruence.
Qed.

(** ** Dictionaries *)

Lemma eqb_sym (a b : jsstring) : JsString.eqb a b = JsString.eqb b a.
Proof.
  destruct (JsString.eqb b a) eqn:E.
  - apply eqb_eq in E. subst. apply eqb_refl.
  - apply eqb_neq. apply eqb_neq in E. congruence.
Qed.

Lemma getOwn_set {V} (o : Obj.t V) k v k' :
  Obj.getOwn (Obj.set o k v) k'
  = if JsString.eqb k k' then Some v else Obj.getOwn o k'.
Proof.
  induction o as [| [k0 v0] r IH]; simpl; [reflexivity |].
  destruct (JsString.eqb k0 k) eqn:E0; simpl.
  - apply eqb_eq in E0. subst k0.
    destruct (JsString.eqb k k'); reflexivity.
  - rewrite IH. destruct (JsString.eqb k0 k') eqn:E1; [| reflexivity].
    apply eqb_eq in E1. subst k0. now rewrite eqb_sym, E0.
Qed.

Lemma getOwn_None {V} (o : Obj.t V) k :
  Obj.getOwn o k = None <-> ~ In k (map fst o).
Proof.
  induction o as [| [k0 v0] r IH]; simpl; [tauto |].
  destruct (JsString.eqb k0 k) eqn:E.
  - apply eqb_eq in E. split; [discriminate | tauto].
  - apply eqb_neq in E. rewrite IH. tauto.
Qed.

Lemma getOwn_In {V} (o : Obj.t V) k v :
  NoDup (map fst o) -> In (k, v) o -> Obj.getOwn o k = Some v.
Proof.
  induction o as [| [k0 v0] r IH]; simpl; intros Hnd H; [destruct H |].
  inversion Hnd as [| ? ? Hk Hr]; subst.
  destruct H as [H | H].
  - injection H as -> ->. now rewrite eqb_refl.
  - destruct (JsString.eqb k0 k) eqn:E; [| now apply IH].
    apply eqb_eq in E. subst k0. exfalso. apply Hk.
    apply in_map_iff. now exists (k, v).
Qed.

Lemma keys_set {V} (o : Obj.t V) k v :
  map fst (Obj.set o k v)
  = if existsb (JsString.eqb k) (map fst o) then map fst o else map fst o ++ [k].
Proof.
  induction o as [| [k0 v0] r IH]; simpl; [reflexivity |].
  destruct (JsString.eqb k0 k) eqn:E; simpl.
  - apply eqb_eq in E. subst k0. now rewrite eqb_refl.
  - assert (E' : JsString.eqb k k0 = false) by now rewrite eqb_sym.
    rewrite E', IH. simpl. destruct (existsb (JsString.eqb k) (map fst r)); reflexivity.
Qed.

Lemma In_set {V} (o : Obj.t V) k v p :
  In p (Obj.set o k v) -> snd p = v \/ In p o.
Proof.
  induction o as [| [k0 v0] r IH]; simpl.
  - intros [<- | []]. now left.
  - destruct (JsString.eqb k0 k); simpl.
    + intros [<- | H]; [now left | now right; right].
    + intros [<- | H]; [now right; left |]. destruct (IH H); tauto.
Qed.

(** ** Accumulating one dictionary *)

Section Tally.

Variable lab : ExcelRow -> jsstring.
Variable x : ExcelRow -> number.

Lemma tallyBy_getOwn fd : forall m k,
  Obj.getOwn (tallyBy lab x fd m) k
  = runningTotal (Obj.getOwn m k) (map x (labelled lab k fd)).
Proof.
  induction fd as [| d r IH]; intros m k; simpl; [reflexivity |].
  unfold tallyBy in *. simpl. rewrite IH. unfold accumulate.
  rewrite getOwn_set.
  destruct (JsString.eqb (lab d) k) eqn:E; simpl; [| reflexivity].
  apply eqb_eq in E. subst k. reflexivity.
Qed.

Lemma tallyBy_keys fd : forall m seen,
  (forall k, In k seen <-> In k (map fst m)) ->
  map fst (tallyBy lab x fd m) = map fst m ++ uniqueFrom JsString.eqb seen (map lab fd).
Proof.
  induction fd as [| d r IH]; intros m seen Hseen; simpl.
  - now rewrite app_nil_r.
  - unfold tallyBy in *. simpl.
    assert (Hex : existsb (JsString.eqb (lab d)) seen
                  = existsb (JsString.eqb (lab d)) (map fst m)).
    { apply eq_true_iff_eq.
      rewrite !(existsb_eqb _ eqb_eq). apply Hseen. }
    pose proof (keys_set m (lab d)
                  (add match Obj.getOwn m (lab d) with
                       | Some v => orZero v
                       | None => zero
                       end (x d))) as Hk.
    destruct (existsb (JsString.eqb (lab d)) (map fst m)) eqn:E; rewrite Hex.
    + rewrite (IH _ seen); unfold accumulate; rewrite Hk; [reflexivity |].
      exact Hseen.
    + rewrite (IH _ (lab d :: seen)); unfold accumulate; rewrite Hk.
      * now rewrite <- app_assoc.
      * intros k. simpl. rewrite in_app_iff, Hseen. simpl. tauto.
Qed.

End Tally.

(** ** First-encounter order *)

Lemma uniqueFrom_Before l : forall seen a b,
  Before (uniqueFrom JsString.eqb seen l) a b -> metBefore l a b.
Proof.
  induction l as [| y r IH]; intros seen a b H; simpl in H.
  - destruct H as (l1 & l2 & l3 & E). destruct l1; discriminate.
  - destruct (existsb (JsString.eqb y) seen) eqn:E.
    + pose proof (proj2 (Before_In H)) as Hb.
      apply (uniqueFrom_In _ eqb_eq) in Hb. destruct Hb as [_ Hb].
      apply (existsb_eqb _ eqb_eq) in E.
      destruct (IH _ _ _ H) as (l1 & l2 & -> & Hn & Hi).
      exists (y :: l1), l2. repeat split; [| assumption].
      intros [-> | Hc]; tauto.
    + apply Before_cons_inv in H. destruct H as [[-> H] | H].
      * apply (uniqueFrom_In _ eqb_eq) in H. destruct H as [H _].
        exists [], r. repeat split; [tauto | assumption].
      * pose proof (proj2 (Before_In H)) as Hb.
        apply (uniqueFrom_In _ eqb_eq) in Hb. destruct Hb as [_ Hb].
        destruct (IH _ _ _ H) as (l1 & l2 & -> & Hn & Hi).
        exists (y :: l1), l2. repeat split; [| assumption].
        intros [-> | Hc]; [apply Hb; now left | tauto].
Qed.

(** ** [Object.entries] *)

Lemma after_byIndex {V} (a b : jsstring * V) :
  after byIndex a b = (Obj.indexOf b <? Obj.indexOf a)%Z.
Proof.
  unfold after, byIndex, ofZ, sign.
  destruct (Z.compare_spec (Obj.indexOf a - Obj.indexOf b) 0);
    symmetry; [apply Z.ltb_ge | apply Z.ltb_ge | apply Z.ltb_lt]; lia.
Qed.

Lemma entries_In {V} (o : Obj.t V) p : In p (Obj.entries o) <-> In p o.
Proof.
  unfold Obj.entries. rewrite in_app_iff, sort_In, !filter_In.
  destruct (Obj.isIndex p); simpl; intuition congruence.
Qed.

Lemma entries_Before {V} (o : Obj.t V) p q :
  Before (Obj.entries o) p q ->
  match Obj.arrayIndex (fst p), Obj.arrayIndex (fst q) with
  | Some i, Some j => (i <= j)%Z
  | Some _, None => True
  | None, Some _ => False
  | None, None => Before o p q
  end.
Proof.
  unfold Obj.entries. intros H. apply Before_app_inv in H.
  destruct H as [H | [[Hp Hq] | H]].
  - pose proof (Before_In H) as [Hp Hq].
    rewrite sort_In, filter_In in Hp, Hq.
    destruct Hp as [_ Hp], Hq as [_ Hq].
    assert (Hs : StronglySorted
                   (fun a b : jsstring * V => after byIndex a b = false)
                   (sort byIndex (filter Obj.isIndex o))).
    { apply sort_sorted with (P := fun _ : jsstring * V => True).
      - intros a b _ _. rewrite !after_byIndex, Z.ltb_lt, Z.ltb_ge. lia.
      - intros a b c _ _ _. rewrite !after_byIndex, !Z.ltb_ge. lia.
      - apply Forall_forall. trivial. }
    pose proof (StronglySorted_Before Hs H) as Hle. cbv beta in Hle.
    rewrite after_byIndex, Z.ltb_ge in Hle.
    unfold Obj.isIndex, Obj.indexOf in *.
    destruct (Obj.arrayIndex (fst p)); [| discriminate].
    destruct (Obj.arrayIndex (fst q)); [assumption | discriminate].
  - rewrite sort_In, filter_In in Hp. rewrite filter_In in Hq.
    destruct Hp as [_ Hp], Hq as [_ Hq]. unfold Obj.isIndex in *.
    destruct (Obj.arrayIndex (fst p)); [| discriminate].
    destruct (Obj.arrayIndex (fst q)); [discriminate | trivial].
  - pose proof (Before_In H) as [Hp Hq].
    rewrite filter_In in Hp, Hq. destruct Hp as [_ Hp], Hq as [_ Hq].
    unfold Obj.isIndex in *.
    destruct (Obj.arrayIndex (fst p)); [discriminate |].
    destruct (Obj.arrayIndex (fst q)); [discriminate |].
    now apply Before_filter in H.
Qed.

Lemma entries_length {V} (o : Obj.t V) :
  List.length (Obj.entries o) = List.length o.
Proof.
  unfold Obj.entries. rewrite length_app, sort_length.
  induction o as [| p r IH]; simpl; [reflexivity |].
  destruct (Obj.isIndex p); simpl; lia.
Qed.

Lemma insert_Permutation {A} (cmp : A -> A -> number) x l :
  Permutation (insert cmp x l) (x :: l).
Proof.
  induction l as [| y r IH]; simpl; [apply Permutation_refl |].
  destruct (after cmp x y); [| apply Permutation_refl].
  apply perm_trans with (y :: x :: r); [now apply perm_skip | apply perm_swap].
Qed.

Lemma sort_Permutation {A} (cmp : A -> A -> number) l :
  Permutation (sort cmp l) l.
Proof.
  induction l as [| x r IH]; simpl; [apply perm_nil |].
  apply perm_trans with (x :: sort cmp r);
    [apply insert_Permutation | now apply perm_skip].
Qed.

Lemma filter_split_Permutation {A} (p : A -> bool) l :
  Permutation (filter p l ++ filter (fun a => negb (p a)) l) l.
Proof.
  induction l as [| x r IH]; simpl; [apply perm_nil |].
  destruct (p x); simpl; [now apply perm_skip |].
  apply Permutation_sym, Permutation_cons_app, Permutation_sym, IH.
Qed.

Lemma entries_Permutation {V} (o : Obj.t V) : Permutation (Obj.entries o) o.
Proof.
  unfold Obj.entries.
  apply perm_trans with (filter Obj.isIndex o
                         ++ filter (fun p => negb (Obj.isIndex p)) o).
  - apply Permutation_app_tail, sort_Permutation.
  - apply filter_split_Permutation.
Qed.

(** ** Running totals are sums *)

(** As long as the sum of the amounts is finite, the running total the
    loop keeps, which restarts at [0] whenever it reads a falsy total, is
    that sum. *)
Lemma running_fold vs : forall a,
  orZero a = a ->
  isFinite (fold_left add vs a) = true ->
  fold_left runningStep vs (Some a) = Some (fold_left add vs a).
Proof.
  induction vs as [| w r IH]; intros a Ha H; [reflexivity |].
  cbn [fold_left] in *. unfold runningStep at 2. rewrite Ha.
  apply IH; [| exact H].
  apply orZero_add. exact (fold_add_finite _ _ H).
Qed.

Lemma runningTotal_sum v vs :
  isFinite (sumOf (v :: vs)) = true ->
  runningTotal None (v :: vs) = Some (sumOf (v :: vs)).
Proof.
  unfold runningTotal, sumOf. cbn [fold_left]. intros H.
  unfold runningStep at 2. apply running_fold; [| exact H].
  apply orZero_add. exact (fold_add_finite _ _ H).
Qed.

(** ** Dictionaries that hold numbers only *)

Lemma getOwn_amounts m k :
  Obj.getOwn (amounts m) k = option_map Amount (Obj.getOwn m k).
Proof.
  induction m as [| [k0 v0] r IH]; cbn; [reflexivity |].
  destruct (JsString.eqb k0 k); [reflexivity | exact IH].
Qed.

Lemma set_amounts m k v :
  Obj.set (amounts m) k (Amount v) = amounts (Obj.set m k v).
Proof.
  induction m as [| [k0 v0] r IH]; cbn; [reflexivity |].
  destruct (JsString.eqb k0 k); cbn; [reflexivity |]. f_equal. exact IH.
Qed.

Lemma bump_amounts m k v :
  Obj.inherited k = false -> bump (amounts m) k v = amounts (accumulate m k v).
Proof.
  intros H. unfold bump, accumulate. rewrite getOwn_amounts.
  destruct (Obj.getOwn m k) as [v0 |]; cbn [option_map];
    [apply set_amounts |].
  destruct (JsString.eqb k (u "__proto__")) eqn:E.
  - apply eqb_eq in E. subst k. discriminate H.
  - rewrite H. apply set_amounts.
Qed.

Lemma insert_map {A B} (f : A -> B) (cmp : A -> A -> number)
  (cmp' : B -> B -> number) x l :
  (forall a b, cmp' (f a) (f b) = cmp a b) ->
  insert cmp' (f x) (map f l) = map f (insert cmp x l).
Proof.
  intros H. induction l as [| y r IH]; cbn; [reflexivity |].
  unfold after. rewrite H. fold (after cmp x y).
  destruct (after cmp x y); cbn; [now rewrite IH | reflexivity].
Qed.

Lemma sort_map {A B} (f : A -> B) (cmp : A -> A -> number)
  (cmp' : B -> B -> number) l :
  (forall a b, cmp' (f a) (f b) = cmp a b) ->
  sort cmp' (map f l) = map f (sort cmp l).
Proof.
  intros H. induction l as [| x r IH]; cbn; [reflexivity |].
  rewrite IH. now apply insert_map.
Qed.

Lemma entries_amounts m : Obj.entries (amounts m) = amounts (Obj.entries m).
Proof.
  unfold Obj.entries, amounts. rewrite map_app.
  rewrite (filter_map_commute _ _ (@Obj.isIndex number)) by reflexivity.
  rewrite (filter_map_commute _ _ (fun p => negb (@Obj.isIndex number p)))
    by reflexivity.
  f_equal. now apply sort_map.
Qed.

Lemma topFive_amounts m :
  Forall finiteAmount m -> topFive (amounts m) = Some (amounts (ranked m)).
Proof.
  intros H. unfold topFive, ranked. rewrite entries_amounts.
  assert (Hall : forallb (fun p : jsstring * tallied => isFinite (amountOf (snd p)))
                   (amounts (Obj.entries m)) = true).
  { apply forallb_forall. intros p Hp. unfold amounts in Hp.
    apply in_map_iff in Hp. destruct Hp as (q & <- & Hq). cbn.
    rewrite Forall_forall in H. apply H. now apply entries_In. }
  rewrite Hall, orb_true_r. unfold amounts.
  rewrite (sort_map _ byAmount) by reflexivity. now rewrite firstn_map.
Qed.

(** ** Rankings *)

Lemma StronglySorted_weaken {A} (R R' : A -> A -> Prop) l :
  (forall a b, In a l -> In b l -> R a b -> R' a b) ->
  StronglySorted R l -> StronglySorted R' l.
Proof.
  intros H Hs. induction Hs as [| x r Hs IH Hx]; constructor.
  - apply IH. intros a b Ha Hb. apply H; now right.
  - rewrite Forall_forall in *. intros y Hy.
    apply H; [now left | now right | now apply Hx].
Qed.

Lemma StronglySorted_map {A B} (f : A -> B) (R : B -> B -> Prop) l :
  StronglySorted (fun a b => R (f a) (f b)) l -> StronglySorted R (map f l).
Proof.
  induction 1 as [| x r Hs IH Hx]; simpl; constructor; [assumption |].
  rewrite Forall_forall in *. intros y Hy. apply in_map_iff in Hy.
  destruct Hy as (z & <- & Hz). now apply Hx.
Qed.

Section Ranking.

Variable lab : ExcelRow -> jsstring.
Variable fd : list ExcelRow.
Hypothesis totals_finite : forall d, In d fd ->
  isFinite (sumOf (map (fun d => orZero (spec_amount d))
                       (labelled lab (lab d) fd))) = true.

Lemma tally_keys_unique :
  map fst (ledger lab fd) = unique JsString.eqb (map lab fd).
Proof.
  unfold ledger. rewrite (tallyBy_keys lab _ fd [] []); [reflexivity | tauto].
Qed.

(** What the dictionary holds under a label: the sum of its amounts. *)
Lemma ledger_value k v :
  In (k, v) (ledger lab fd) ->
  v = sumOf (map (fun d => orZero (spec_amount d)) (labelled lab k fd))
  /\ isFinite v = true.
Proof.
  intros Hp.
  assert (Hkeys : NoDup (map fst (ledger lab fd))).
  { rewrite tally_keys_unique. apply (unique_NoDup _ eqb_eq). }
  assert (Hk : In k (map fst (ledger lab fd)))
    by (apply in_map_iff; now exists (k, v)).
  rewrite tally_keys_unique, (unique_In _ eqb_eq), in_map_iff in Hk.
  destruct Hk as (d & E & Hd). pose proof (totals_finite d Hd) as Hfin.
  rewrite E in Hfin.
  pose proof (getOwn_In _ _ _ Hkeys Hp) as G. unfold ledger in G.
  rewrite tallyBy_getOwn in G. cbn [Obj.getOwn] in G.
  destruct (map (fun d => orZero (spec_amount d)) (labelled lab k fd))
    as [| v0 vs] eqn:Evs.
  - exfalso. apply map_eq_nil in Evs.
    assert (Hin : In d (labelled lab k fd))
      by (apply filter_In; split; [assumption | now apply eqb_eq]).
    rewrite Evs in Hin. destruct Hin.
  - rewrite (runningTotal_sum _ _ Hfin) in G. injection G as <-. now split.
Qed.

Lemma ledger_finite : Forall finiteAmount (ledger lab fd).
Proof.
  apply Forall_forall. intros [k v] Hp. now apply ledger_value in Hp.
Qed.

Lemma tally_ranking :
  rankingOf lab fd (map entityOf (ranked (ledger lab fd))).
Proof.
  set (L := sort byAmount (Obj.entries (ledger lab fd))).
  pose proof ledger_finite as HM.
  assert (HLin : forall p, In p L <-> In p (ledger lab fd)).
  { intros p. unfold L. now rewrite sort_In, entries_In. }
  assert (HLfin : Forall finiteAmount L).
  { apply Forall_forall. intros p Hp. rewrite Forall_forall in HM.
    apply HM. now apply HLin. }
  assert (Hkeys : NoDup (map fst (ledger lab fd))).
  { rewrite tally_keys_unique. apply (unique_NoDup _ eqb_eq). }
  assert (HP : Permutation L (ledger lab fd)).
  { unfold L. eapply perm_trans; [apply sort_Permutation | apply entries_Permutation]. }
  assert (Hname : forall l : list (jsstring * number),
             map name (map entityOf l) = map fst l).
  { intros l. rewrite map_map. reflexivity. }
  exists (map entityOf L). repeat split.
  - unfold ranked. symmetry. apply firstn_map.
  - rewrite Hname.
    apply (Permutation_NoDup (Permutation_sym (Permutation_map fst HP)) Hkeys).
  - rewrite Hname. intros Hk.
    apply (Permutation_in _ (Permutation_map fst HP)) in Hk.
    rewrite tally_keys_unique, (unique_In _ eqb_eq), in_map_iff in Hk.
    destruct Hk as (d & E & Hd). now exists d.
  - rewrite Hname. intros (d & Hd & E).
    apply (Permutation_in _ (Permutation_sym (Permutation_map fst HP))).
    rewrite tally_keys_unique, (unique_In _ eqb_eq), in_map_iff.
    now exists d.
  - intros e He. apply in_map_iff in He. destruct He as ([k v] & <- & Hp).
    apply HLin in Hp. cbn. f_equal. now apply ledger_value.
  - apply StronglySorted_map.
    apply StronglySorted_weaken
      with (R := fun a b => after byAmount a b = false).
    + intros a b Ha Hb Hab. rewrite Forall_forall in HLfin.
      rewrite (after_byAmount (HLfin _ Ha) (HLfin _ Hb)) in Hab.
      now apply negb_false_iff in Hab.
    + apply sort_sorted with (P := finiteAmount).
      * apply byAmount_asym.
      * apply byAmount_trans.
      * apply Forall_forall. intros p Hp. rewrite Forall_forall in HM.
        apply HM. now apply entries_In.
  - intros a b Hab Htie. apply Before_map in Hab.
    destruct Hab as (p & q & -> & -> & Hpq). simpl in *.
    pose proof (Before_In Hpq) as [Hp Hq].
    rewrite Forall_forall in HLfin.
    assert (Hstay : after byAmount q p = false).
    { rewrite (after_byAmount (HLfin _ Hq) (HLfin _ Hp)).
      apply negb_false_iff. now apply strictEq_geb. }
    apply sort_stable in Hpq; [| assumption].
    apply entries_Before in Hpq.
    destruct (Obj.arrayIndex (fst p)), (Obj.arrayIndex (fst q)); try assumption.
    apply uniqueFrom_Before with (seen := []).
    fold (unique JsString.eqb (map lab fd)). rewrite <- tally_keys_unique.
    destruct Hpq as (l1 & l2 & l3 & E). rewrite E, !map_app. simpl.
    rewrite map_app. simpl. now exists (map fst l1), (map fst l2), (map fst l3).
Qed.

End Ranking.

(** ** The summary of [src/index.tsx] *)

Lemma tally_fold fd : forall consMap desMap,
  (forall d, In d fd ->
     Obj.inherited (constructorLabel d) = false
     /\ Obj.inherited (designerLabel d) = false) ->
  fold_left Index.tally fd (amounts consMap, amounts desMap)
  = (amounts (tallyBy constructorLabel (fun d => orZero (spec_amount d)) fd consMap),
     amounts (tallyBy designerLabel (fun d => orZero (spec_amount d)) fd desMap)).
Proof.
  induction fd as [| d r IH]; intros consMap desMap H; [reflexivity |].
  destruct (H d (or_introl eq_refl)) as [Hc Hd].
  cbn [fold_left]. unfold Index.tally at 2. cbn [fst snd].
  fold (constructorLabel d) (designerLabel d).
  rewrite (bump_amounts _ _ _ Hc), (bump_amounts _ _ _ Hd).
  unfold tallyBy. cbn [fold_left]. apply IH. intros d' Hd'. apply H. now right.
Qed.

(** C6, as the code has it ([src/index.tsx]).  Take a filtered record set
    whose labels are not among the member names every object inherits and
    in which the amounts of every label have a finite sum, the amounts
    being added as doubles in the order of the records ([NaN] counting as
    [0]).  A record is counted under its constructor (its designer), or
    under 기타 when that field is empty or the placeholder "-"; each of the
    two top lists is the first five entries of the list of all labels
    with the sum of their amounts, in descending order of sum.  Equal sums
    keep the order in which [Object.entries] lists the labels: labels that
    are array indices first, in ascending numeric order, then the other
    labels in the order in which they were first met.  With A met before B
    and sums A 300, B 300, C 100 the list is A, B, C.  The sums are those
    of the doubles: with B 0.3 met first and then A 0.1 and A 0.2, the sum
    of A is 0.30000000000000004 and A is listed before B. *)
Theorem ranking_top_five (filteredData : list ExcelRow) :
  (forall d, In d filteredData ->
     Obj.inherited (constructorLabel d) = false
     /\ Obj.inherited (designerLabel d) = false) ->
  (forall d, In d filteredData ->
     isFinite (sumOf (map (fun d => orZero (spec_amount d))
                 (labelled constructorLabel (constructorLabel d) filteredData)))
     = true
     /\ isFinite (sumOf (map (fun d => orZero (spec_amount d))
                    (labelled designerLabel (designerLabel d) filteredData)))
        = true) ->
  (exists cons des,
     top3Cons (Index.summary filteredData) = Some cons
     /\ top3Des (Index.summary filteredData) = Some des
     /\ rankingOf constructorLabel filteredData cons
     /\ rankingOf designerLabel filteredData des
     /\ List.length cons <= 5 /\ List.length des <= 5)
  /\ (forall x, (x = [] \/ x = placeholder -> Index.entityLabel x = catchAll)
                /\ (x <> [] -> x <> placeholder -> Index.entityLabel x = x))
  /\ option_map (map name) (top3Cons (Index.summary scenarioF))
     = Some [u "A"; u "B"; u "C"]
  /\ top3Cons (Index.summary roundedSums)
     = Some [ {| name := u "A"; amount := Amount (Dec 30000000000000004 (-17)) |};
              {| name := u "B"; amount := Amount (Dec 3 (-1)) |} ].
Proof.
  intros Hlab Hfin. split; [| split; [| split]].
  - assert (Hc : forall d, In d filteredData ->
               isFinite (sumOf (map (fun d => orZero (spec_amount d))
                 (labelled constructorLabel (constructorLabel d) filteredData)))
               = true) by (intros d Hd; now apply Hfin).
    assert (Hd : forall d, In d filteredData ->
               isFinite (sumOf (map (fun d => orZero (spec_amount d))
                 (labelled designerLabel (designerLabel d) filteredData)))
               = true) by (intros d Hd; now apply Hfin).
    pose proof (tally_fold filteredData [] [] Hlab) as Ht.
    change (amounts []) with (@nil (jsstring * tallied)) in Ht.
    exists (map entityOf (ranked (ledger constructorLabel filteredData))),
           (map entityOf (ranked (ledger designerLabel filteredData))).
    assert (Htop : forall m, Forall finiteAmount m ->
              option_map (map Index.toEntity) (topFive (amounts m))
              = Some (map entityOf (ranked m))).
    { intros m Hm. rewrite (topFive_amounts Hm). cbn [option_map].
      unfold amounts. now rewrite map_map. }
    unfold Index.summary. cbn [top3Cons top3Des]. unfold Obj.t in *.
    rewrite Ht. cbn [fst snd].
    split; [apply Htop, ledger_finite, Hc |].
    split; [apply Htop, ledger_finite, Hd |].
    split; [now apply tally_ranking |]. split; [now apply tally_ranking |].
    unfold ranked. rewrite !length_map. split; apply firstn_le_length.
  - intros x. split.
    + intros [-> | ->]; reflexivity.
    + intros H1 H2. unfold Index.entityLabel.
      apply truthy_nonempty in H1. apply eqb_neq in H2.
      now rewrite H1, H2.
  - vm_compute. reflexivity.
  - vm_compute. reflexivity.
Qed.

Lemma ranking_top_five_witness :
  exists cons, top3Cons (Index.summary scenarioF) = Some cons
               /\ rankingOf constructorLabel scenarioF cons.
Proof.
  destruct (ranking_top_five scenarioF) as [(cons & des & Hc & _ & Hr & _) _].
  - intros d Hd. simpl in Hd.
    repeat (destruct Hd as [<- | Hd]; [split; reflexivity |]). destruct Hd.
  - intros d Hd. simpl in Hd.
    repeat (destruct Hd as [<- | Hd]; [split; vm_compute; reflexivity |]).
    destruct Hd.
  - exists cons. now split.
Defined.

(** C6 as stated fails on names that are array indices: with equal sums,
    "7" is listed before "B" although "B" was met first. *)
Lemma index_name_listed_first :
  map constructor numberedNames = [u "B"; u "7"]
  /\ top3Cons (Index.summary numberedNames)
     = Some [ {| name := u "7"; amount := Amount (Dec 300 0) |};
              {| name := u "B"; amount := Amount (Dec 300 0) |} ].
Proof. split; vm_compute; reflexivity. Qed.

(* ===================================================================== *)
(** * Further properties of the code *)
(* ===================================================================== *)

(** ** Header normalisation ([normalizeKey]) *)

Ltac unit_cases :=
  repeat match goal with
         | |- context [(?a <=? ?b)%N] => destruct (N.leb_spec a b)
         | |- context [(?a =? ?b)%N] => destruct (N.eqb_spec a b)
         | H : context [(?a <=? ?b)%N] |- _ => destruct (N.leb_spec a b)
         | H : context [(?a =? ?b)%N] |- _ => destruct (N.eqb_spec a b)
         end;
  simpl in *; try discriminate; try reflexivity; try lia.

Lemma lowerUnit_keyUnit c : keyUnit c = true -> lowerUnit c = [c].
Proof. unfold keyUnit, lowerUnit. intros H. unit_cases. Qed.

Lemma normalizeKey_app a b :
  normalizeKey (a ++ b) = normalizeKey a ++ normalizeKey b.
Proof.
  unfold normalizeKey, toLowerCase. now rewrite flat_map_app, filter_app.
Qed.

Lemma normalizeKey_fixed s :
  Forall (fun c => keyUnit c = true) s -> normalizeKey s = s.
Proof.
  induction 1 as [| c r Hc _ IH]; [reflexivity |].
  change (c :: r) with ([c] ++ r). rewrite normalizeKey_app, IH.
  unfold normalizeKey, toLowerCase. simpl.
  rewrite (lowerUnit_keyUnit _ Hc). simpl. now rewrite Hc.
Qed.

Lemma normalizeKey_class key :
  Forall (fun c => keyUnit c = true) (normalizeKey key).
Proof.
  apply Forall_forall. intros c Hc. unfold normalizeKey in Hc.
  now apply filter_In in Hc.
Qed.

(** X1.  [normalizeKey] keeps only units of the class [a-z0-9가-힣], works
    unit by unit (it distributes over concatenation), leaves a string of
    that class as it is, and is therefore idempotent. *)
Theorem normalizeKey_idempotent (a b : jsstring) :
  Forall (fun c => keyUnit c = true) (normalizeKey a)
  /\ normalizeKey (a ++ b) = normalizeKey a ++ normalizeKey b
  /\ (Forall (fun c => keyUnit c = true) a -> normalizeKey a = a)
  /\ normalizeKey (normalizeKey a) = normalizeKey a.
Proof.
  split; [apply normalizeKey_class |].
  split; [apply normalizeKey_app |].
  split; [apply normalizeKey_fixed |].
  apply normalizeKey_fixed, normalizeKey_class.
Qed.

Lemma normalizeKey_idempotent_witness :
  normalizeKey (u "spec_amount") = u "specamount"
  /\ normalizeKey (u "specamount") = u "specamount".
Proof.
  split; [reflexivity |].
  apply (proj1 (proj2 (proj2 (normalizeKey_idempotent (u "specamount") [])))).
  repeat constructor.
Defined.

(** X2.  Header spelling does not matter: a Latin capital is read as its
    small letter, and a unit that is neither a letter of the class, a digit
    nor a capital (a space, an underscore, a hyphen, ...) is dropped,
    wherever it stands. *)
Theorem normalizeKey_spelling (a b : jsstring) (c : N) :
  ((65 <= c <= 90)%N ->
   normalizeKey (a ++ c :: b) = normalizeKey (a ++ (c + 32)%N :: b))
  /\ (keyUnit c = false -> ~ (65 <= c <= 90)%N -> c <> 304%N -> c <> 8490%N ->
      normalizeKey (a ++ c :: b) = normalizeKey (a ++ b)).
Proof.
  split.
  - intros Hc. change (c :: b) with ([c] ++ b).
    change ((c + 32)%N :: b) with ([(c + 32)%N] ++ b).
    rewrite !normalizeKey_app. do 2 f_equal.
    unfold normalizeKey, toLowerCase, lowerUnit, keyUnit. simpl. unit_cases.
  - intros Hk Hu H1 H2. change (c :: b) with ([c] ++ b).
    rewrite !normalizeKey_app.
    assert (E : normalizeKey [c] = []); [| now rewrite E].
    assert (L : lowerUnit c = [c]) by (unfold lowerUnit; unit_cases).
    unfold normalizeKey, toLowerCase. simpl. rewrite L. simpl. now rewrite Hk.
Qed.

Lemma normalizeKey_spelling_witness :
  normalizeKey (u "Project Name") = normalizeKey (u "project_name").
Proof.
  destruct (normalizeKey_spelling [] (u "roject Name") 80) as [Hcap _].
  change (u "Project Name") with ([] ++ 80%N :: u "roject Name").
  rewrite Hcap by lia.
  destruct (normalizeKey_spelling (u "project") (u "Name") 32) as [_ Hsep].
  change ([] ++ (80 + 32)%N :: u "roject Name")
    with (u "project" ++ 32%N :: u "Name").
  rewrite Hsep by (try reflexivity; lia). reflexivity.
Defined.

(** ** Cell lookup ([getVal]) *)

Lemma includes_In l x : includes l x = true <-> In x l.
Proof.
  unfold includes. rewrite existsb_exists. split.
  - intros (y & Hy & E). apply eqb_eq in E. now subst.
  - intros H. exists x. split; [assumption | apply eqb_refl].
Qed.

(** [getVal] walks the row once: the first key whose normal form is that of
    an alias decides. *)
Lemma getVal_cons k v (r : rawRow) aliases :
  getVal ((k, v) :: r) aliases
  = if includes (map normalizeKey aliases) (normalizeKey k)
    then (if JsString.truthy k then v else Undefined)
    else getVal r aliases.
Proof.
  unfold getVal. cbn [map fst find].
  destruct (includes (map normalizeKey aliases) (normalizeKey k)) eqn:Hk.
  - cbn [rowGet]. now rewrite eqb_refl.
  - destruct (find _ (map fst r)) as [k2 |] eqn:F; [| reflexivity].
    apply find_some in F. destruct F as [_ F].
    destruct (JsString.truthy k2); [| reflexivity].
    cbn [rowGet]. destruct (JsString.eqb k k2) eqn:E; [| reflexivity].
    apply eqb_eq in E. subst k2. congruence.
Qed.

(** X3.  The result of [getVal] depends on the aliases only through the set
    of their normal forms: reordering the alias list, repeating an alias or
    respelling it (capitals, separators) changes nothing. *)
Theorem getVal_alias_set (row : rawRow) (aliases aliases' : list jsstring) :
  (forall k, In k (map normalizeKey aliases) <-> In k (map normalizeKey aliases')) ->
  getVal row aliases = getVal row aliases'.
Proof.
  intros H. induction row as [| [k v] r IH]; [reflexivity |].
  rewrite !getVal_cons, IH.
  replace (includes (map normalizeKey aliases') (normalizeKey k))
    with (includes (map normalizeKey aliases) (normalizeKey k)); [reflexivity |].
  apply eq_true_iff_eq. rewrite !includes_In. apply H.
Qed.

Lemma getVal_alias_set_witness :
  getVal demoRow [u "spec_amount"; u "합계"] = getVal demoRow [u "합 계"; u "Spec Amount"].
Proof.
  apply getVal_alias_set. intros k. simpl. tauto.
Defined.

(** X4.  [getVal] answers [undefined] when no key of the row has the normal
    form of an alias; otherwise the first such key, in the order of the
    row's keys, decides alone: its cell is returned (or [undefined] if that
    key is the empty string), whatever later keys hold.  A value that is
    returned is always a cell of the row under a matching key. *)
Theorem getVal_first_match (row : rawRow) (aliases : list jsstring) :
  let matching k := includes (map normalizeKey aliases) (normalizeKey k) in
  ((forall k, In k (map fst row) -> matching k = false) ->
   getVal row aliases = Undefined)
  /\ (forall pre k v post,
        row = pre ++ (k, v) :: post ->
        (forall k', In k' (map fst pre) -> matching k' = false) ->
        matching k = true ->
        getVal row aliases = if JsString.truthy k then v else Undefined)
  /\ (forall v, getVal row aliases = v -> v <> Undefined ->
        exists k, In (k, v) row /\ matching k = true /\ k <> []).
Proof.
  intros matching. split; [| split].
  - induction row as [| [k v] r IH]; intros H; [reflexivity |].
    rewrite getVal_cons. fold (matching k).
    rewrite (H k (or_introl eq_refl)). apply IH. intros k' Hk'. apply H. now right.
  - intros pre k v post -> Hpre Hk. induction pre as [| [k0 v0] p IH]; simpl.
    + rewrite getVal_cons. fold (matching k). now rewrite Hk.
    + rewrite getVal_cons. fold (matching k0).
      rewrite (Hpre k0 (or_introl eq_refl)). apply IH.
      intros k' Hk'. apply Hpre. now right.
  - induction row as [| [k v] r IH]; intros w Hw Hu.
    + now subst w.
    + rewrite getVal_cons in Hw. fold (matching k) in Hw.
      destruct (matching k) eqn:Hk.
      * destruct (JsString.truthy k) eqn:Ht; [| now subst w].
        exists k. subst w. repeat split; try assumption; [now left |].
        now apply truthy_nonempty.
      * destruct (IH w Hw Hu) as (k' & Hin & Hm). exists k'.
        split; [now right | assumption].
Qed.

Lemma getVal_first_match_witness :
  getVal demoRow [u "year"; u "연도"; u "년"; u "년도"] = Num (Dec 2024 0).
Proof.
  apply (proj1 (proj2 (getVal_first_match demoRow [u "year"; u "연도"; u "년"; u "년도"]))
           [(u "현장명", Str (u "서울 데이터센터 A"))] (u "연도") (Num (Dec 2024 0))
           [(u "월", Str (u "5월")); (u "위도", Num (Dec 375665 (-4)));
            (u "경도", Str (u "126.9780")); (u "합계", Str (u "1,200 Ton"))]).
  - reflexivity.
  - intros k' [<- | []]. reflexivity.
  - reflexivity.
Defined.

(** X5.  Respelling a header does not change what is read: two rows that
    differ only in the spelling of one non-empty key, with the same normal
    form, give the same cell for every alias list. *)
Theorem getVal_header_spelling
  (pre post : rawRow) (k k' : jsstring) (v : cell) (aliases : list jsstring) :
  normalizeKey k = normalizeKey k' -> k <> [] -> k' <> [] ->
  getVal (pre ++ (k, v) :: post) aliases = getVal (pre ++ (k', v) :: post) aliases.
Proof.
  intros Hn Hk Hk'. induction pre as [| [k0 v0] p IH]; simpl.
  - rewrite !getVal_cons, Hn.
    apply truthy_nonempty in Hk. apply truthy_nonempty in Hk'.
    now rewrite Hk, Hk'.
  - rewrite !getVal_cons, IH. reflexivity.
Qed.

Lemma getVal_header_spelling_witness :
  getVal [(u "Project Name", Str (u "P")); (u "합계", Num (Dec 1 0))]
         [u "project_name"]
  = getVal [(u "project_name", Str (u "P")); (u "합계", Num (Dec 1 0))]
           [u "project_name"].
Proof.
  apply (getVal_header_spelling [] [(u "합계", Num (Dec 1 0))]
           (k := u "Project Name") (k' := u "project_name")); try discriminate.
  reflexivity.
Defined.

(** ** Number coercion ([parseNum]) *)

Lemma span_all p s : Forall (fun c => p c = true) s -> span p s = (s, []).
Proof.
  induction 1 as [| c r Hc _ IH]; simpl; [reflexivity |]. now rewrite Hc, IH.
Qed.

Lemma span_none p c r : p c = false -> span p (c :: r) = ([], c :: r).
Proof. intros H. simpl. now rewrite H. Qed.

Lemma prefix_Infinity c r : c <> 73%N -> prefix (utf16 "Infinity") (c :: r) = None.
Proof.
  intros H. change (utf16 "Infinity") with (73%N :: utf16 "nfinity").
  cbn [prefix]. destruct (N.eqb_spec 73 c); [congruence | reflexivity].
Qed.

Lemma parseFloat_digits ds :
  ds <> [] -> Forall (fun c => isDigit c = true) ds ->
  parseFloat ds = numberValue (Dec (digitsToZ ds) 0).
Proof.
  intros Hne Hd. destruct ds as [| c r]; [congruence |].
  assert (Hc : isDigit c = true) by now inversion Hd.
  assert (Hr : (48 <= c <= 57)%N)
    by (unfold isDigit in Hc; apply andb_true_iff in Hc;
        rewrite !N.leb_le in Hc; lia).
  assert (Hsp : trimStart (c :: r) = c :: r).
  { simpl. assert (E : isSpace c = false).
    { assert (Hin : In c [48; 49; 50; 51; 52; 53; 54; 55; 56; 57]%N)
        by (cbn [In]; lia).
      cbn [In] in Hin.
      repeat (destruct Hin as [<- | Hin]; [reflexivity |]). destruct Hin. }
    now rewrite E. }
  unfold parseFloat. rewrite Hsp. unfold scanDecimal.
  rewrite signPart_unsigned
    by (intros c' r' E; injection E as <- <-; split; lia).
  rewrite prefix_Infinity by lia.
  rewrite (span_all isDigit Hd). cbn [fractionPart exponentPart].
  rewrite app_nil_r. reflexivity.
Qed.

Lemma parseFloat_points t :
  Forall (fun c => c = 46%N) t -> parseFloat t = NaN.
Proof.
  intros H. destruct H as [| c r -> Hr]; [reflexivity |].
  assert (T : trimStart (46%N :: r) = 46%N :: r) by reflexivity.
  assert (S : signPart (46%N :: r) = (false, 46%N :: r)) by reflexivity.
  unfold parseFloat. rewrite T. unfold scanDecimal. rewrite S.
  rewrite prefix_Infinity by discriminate.
  rewrite span_none by reflexivity.
  assert (F : fractionPart (46%N :: r) = span isDigit r) by reflexivity.
  rewrite F.
  destruct Hr as [| c r' -> _]; [reflexivity |].
  rewrite span_none by reflexivity. reflexivity.
Qed.

Lemma filter_numUnit_no_point s :
  ~ In 46%N s -> filter numUnit s = filter isDigit s.
Proof.
  intros H. apply filter_ext_in. intros c Hc. unfold numUnit.
  destruct (N.eqb_spec c 46) as [-> | _]; [tauto | apply orb_false_r].
Qed.

(** X6.  What [parseNum] reads in a text cell is its digits and points and
    nothing else.  A text without a point that holds at least one digit is
    read as the double nearest to the whole number its digits spell, which
    is that number itself when it is below [10^15]: a sign, a thousands
    separator, a unit or an exponent letter is silently dropped.  A text
    without any digit gives [0]. *)
Theorem parseNum_reads_digits (s : jsstring) :
  (~ In 46%N s -> (exists c, In c s /\ isDigit c = true) ->
   parseNum (Str s) = numberValue (Dec (digitsToZ (filter isDigit s)) 0)
   /\ ((digitsToZ (filter isDigit s) < 10 ^ 15)%Z ->
       parseNum (Str s) = Dec (digitsToZ (filter isDigit s)) 0))
  /\ ((forall c, In c s -> isDigit c = false) -> parseNum (Str s) = zero).
Proof.
  split.
  - intros Hp (c & Hc & Hd).
    assert (Hne : filter isDigit s <> []).
    { intros E. assert (H : In c (filter isDigit s)) by now apply filter_In.
      rewrite E in H. destruct H. }
    assert (Hall : Forall (fun c => isDigit c = true) (filter isDigit s)).
    { apply Forall_forall. intros x Hx. now apply filter_In in Hx. }
    assert (Hread : parseNum (Str s)
                    = numberValue (Dec (digitsToZ (filter isDigit s)) 0)).
    { destruct s as [| c0 r]; [destruct Hc |].
      unfold parseNum. cbn [Cell.toString].
      rewrite (filter_numUnit_no_point _ Hp), (parseFloat_digits Hne Hall).
      now rewrite numberValue_isNaN. }
    split; [exact Hread |]. intros Hsmall. rewrite Hread.
    pose proof (digitsToZ_nonneg Hall) as H0.
    rewrite numberValue_short.
    + destruct (Z.eqb_spec (digitsToZ (filter isDigit s)) 0) as [-> | _];
        reflexivity.
    + unfold short. rewrite Z.abs_eq by exact H0.
      apply Z.ltb_lt in Hsmall. now rewrite Hsmall.
  - intros Hnd. destruct s as [| c0 r]; [reflexivity |].
    unfold parseNum. cbn [Cell.toString].
    rewrite parseFloat_points; [reflexivity |].
    apply Forall_forall. intros x Hx. apply filter_In in Hx.
    destruct Hx as [Hx Hu]. unfold numUnit in Hu.
    rewrite (Hnd x Hx) in Hu. simpl in Hu. now apply N.eqb_eq.
Qed.

Lemma parseNum_reads_digits_witness :
  parseNum (Str (u "-1,200 Ton")) = Dec 1200 0
  /\ parseNum (Str (u "1e3")) = Dec 13 0
  /\ parseNum (Str (u "9007199254740993")) = Dec 9007199254740992 0
  /\ parseNum (Str (u "n/a")) = zero.
Proof.
  split; [| split; [| split]].
  - apply (proj1 (parseNum_reads_digits (u "-1,200 Ton"))).
    + vm_compute. intuition discriminate.
    + exists 49%N. split; [vm_compute; tauto | reflexivity].
    + vm_compute. reflexivity.
  - apply (proj1 (parseNum_reads_digits (u "1e3"))).
    + vm_compute. intuition discriminate.
    + exists 49%N. split; [vm_compute; tauto | reflexivity].
    + vm_compute. reflexivity.
  - destruct (proj1 (parseNum_reads_digits (u "9007199254740993")))
      as [H _].
    + vm_compute. intuition discriminate.
    + exists 57%N. split; [vm_compute; tauto | reflexivity].
    + rewrite H. vm_compute. reflexivity.
  - apply (proj2 (parseNum_reads_digits (u "n/a"))).
    intros c Hc. vm_compute in Hc.
    repeat (destruct Hc as [<- | Hc]; [reflexivity |]). destruct Hc.
Defined.

(** ** Year and month filters ([filteredData], [stats], [availableMonths]) *)

Lemma filter_true {A} (f : A -> bool) l :
  (forall a, In a l -> f a = true) -> filter f l = l.
Proof.
  induction l as [| a r IH]; intros H; simpl; [reflexivity |].
  rewrite (H a (or_introl eq_refl)), IH; [reflexivity |].
  intros b Hb. apply H. now right.
Qed.

Lemma filter_false {A} (f : A -> bool) l :
  (forall a, In a l -> f a = false) -> filter f l = [].
Proof.
  induction l as [| a r IH]; intros H; simpl; [reflexivity |].
  rewrite (H a (or_introl eq_refl)). apply IH.
  intros b Hb. apply H. now right.
Qed.

Lemma filter_twice {A} (f g : A -> bool) l :
  filter f (filter g l) = filter (fun a => g a && f a) l.
Proof.
  induction l as [| a r IH]; simpl; [reflexivity |].
  destruct (g a); simpl; [destruct (f a) |]; now rewrite IH.
Qed.

Lemma strictEq_NaN_l a : strictEq NaN a = false.
Proof. reflexivity. Qed.

Lemma strictEq_NaN_r a : strictEq a NaN = false.
Proof. now destruct a. Qed.

Lemma strictEq_refl a : isNaN a = false -> strictEq a a = true.
Proof.
  destruct a as [| s | m e]; [discriminate | |]; intros _; unfold strictEq; simpl.
  - now rewrite Bool.eqb_reflx.
  - now rewrite Z.compare_refl.
Qed.

(** X7.  The two filters are independent and repeatable: with both
    selectors on the sentinel [0] every record passes; filtering by year
    and then by month is filtering by both at once; filtering twice with
    the same selectors changes nothing more; and a selector that is [NaN]
    lets no record through. *)
Theorem filteredData_composes (data : list ExcelRow) (y m : number) :
  filteredData data zero zero = data
  /\ filteredData (filteredData data y zero) zero m = filteredData data y m
  /\ filteredData (filteredData data y m) y m = filteredData data y m
  /\ (isNaN y = true \/ isNaN m = true -> filteredData data y m = []).
Proof.
  split; [| split; [| split]].
  - apply filter_true. reflexivity.
  - unfold filteredData. rewrite filter_twice. apply filter_ext. intros d.
    change (strictEq zero zero) with true. cbn [orb andb].
    now rewrite andb_true_r.
  - unfold filteredData. rewrite filter_twice. apply filter_ext. intros d.
    cbv zeta. apply andb_diag.
  - intros H. apply filter_false. intros d _. cbv zeta.
    destruct H as [H | H]; [destruct y | destruct m]; try discriminate;
      rewrite strictEq_NaN_l, strictEq_NaN_r; cbn [orb andb];
      [reflexivity | apply andb_false_r].
Qed.

Lemma filteredData_composes_witness :
  filteredData scenarioF NaN zero = [].
Proof.
  apply (proj2 (proj2 (proj2 (filteredData_composes scenarioF NaN zero)))).
  now left.
Defined.

Section UniqueUpTo.

Variable A : Type.
Variable same : A -> A -> bool.
Hypothesis same_refl : forall a, same a a = true.

Lemma uniqueFrom_sub l : forall seen x,
  In x (uniqueFrom same seen l) -> In x l.
Proof.
  induction l as [| h r IH]; intros seen x; simpl; [tauto |].
  destruct (existsb (same h) seen).
  - intros H. right. now apply IH in H.
  - intros [<- | H]; [now left | right; now apply IH in H].
Qed.

Lemma uniqueFrom_fresh l : forall seen x,
  In x (uniqueFrom same seen l) -> forall a, In a seen -> same x a = false.
Proof.
  induction l as [| h r IH]; intros seen x; simpl; [tauto |].
  destruct (existsb (same h) seen) eqn:E.
  - apply IH.
  - intros [<- | H] a Ha.
    + destruct (same h a) eqn:Eh; [| reflexivity].
      assert (existsb (same h) seen = true); [| congruence].
      apply existsb_exists. now exists a.
    + apply (IH _ _ H). now right.
Qed.

Lemma uniqueFrom_apart l : forall seen a b,
  Before (uniqueFrom same seen l) a b -> same b a = false.
Proof.
  induction l as [| h r IH]; intros seen a b H; simpl in H.
  - destruct H as (l1 & l2 & l3 & E). destruct l1; discriminate.
  - destruct (existsb (same h) seen); [now apply IH in H |].
    apply Before_cons_inv in H. destruct H as [[-> H] | H]; [| now apply IH in H].
    apply (uniqueFrom_fresh _ _ _ H). now left.
Qed.

Lemma uniqueFrom_cover l : forall seen x,
  In x l ->
  exists y, (In y seen \/ In y (uniqueFrom same seen l)) /\ same x y = true.
Proof.
  induction l as [| h r IH]; intros seen x; simpl; [tauto |].
  destruct (existsb (same h) seen) eqn:E.
  - intros [<- | H].
    + apply existsb_exists in E. destruct E as (y & Hy & Ey). exists y. tauto.
    + now apply IH.
  - intros [<- | H].
    + exists h. split; [right; now left | apply same_refl].
    + destruct (IH (h :: seen) x H) as (y & Hy & Ey).
      exists y. simpl in *. tauto.
Qed.

Lemma unique_NoDup_upto l : NoDup (unique same l).
Proof.
  unfold unique. generalize (@nil A). induction l as [| h r IH]; intros seen;
    simpl; [constructor |].
  destruct (existsb (same h) seen); [apply IH |].
  constructor; [| apply IH]. intros H.
  pose proof (uniqueFrom_fresh _ _ _ H h (or_introl eq_refl)) as E.
  rewrite same_refl in E. discriminate.
Qed.

End UniqueUpTo.

Lemma Before_total {A} (l : list A) a b :
  In a l -> In b l -> a <> b -> Before l a b \/ Before l b a.
Proof.
  induction l as [| x r IH]; intros Ha Hb Hab; [destruct Ha |].
  destruct Ha as [-> | Ha], Hb as [-> | Hb].
  - congruence.
  - left. now apply Before_head.
  - right. now apply Before_head.
  - destruct (IH Ha Hb Hab); [left | right]; now apply Before_cons.
Qed.

Lemma StronglySorted_strict {A} (R R' : A -> A -> Prop) l :
  NoDup l ->
  (forall a b, In a l -> In b l -> a <> b -> R a b -> R' a b) ->
  StronglySorted R l -> StronglySorted R' l.
Proof.
  intros Hnd H Hs. induction Hs as [| x r Hs IH Hx]; constructor.
  - inversion Hnd; subst. apply IH; [assumption |].
    intros a b Ha Hb. apply H; now right.
  - inversion Hnd as [| ? ? Hn _]; subst. rewrite Forall_forall in *.
    intros y Hy. apply H; [now left | now right | | now apply Hx].
    intros ->. contradiction.
Qed.

Lemma sameValueZero_refl a : sameValueZero a a = true.
Proof. destruct a; [reflexivity | |]; now apply strictEq_refl. Qed.

Lemma strictEq_sym a b : strictEq a b = strictEq b a.
Proof.
  unfold strictEq.
  destruct a as [| s | m1 e1], b as [| t | m2 e2]; simpl; try reflexivity;
    try (destruct s; reflexivity); try (destruct t; reflexivity);
    try (destruct s, t; reflexivity).
  rewrite (Z.min_comm e2 e1), (Z.compare_antisym (scaled m1 e1 _)).
  now destruct (scaled m1 e1 (Z.min e1 e2) ?= scaled m2 e2 (Z.min e1 e2))%Z.
Qed.

(** The comparator [(a, b) => a - b] on finite numbers. *)
Lemma after_sub a b E :
  isFinite a = true -> isFinite b = true ->
  (E <= expOf a)%Z -> (E <= expOf b)%Z ->
  after (fun x y => sub x y) a b = (valAt E b <? valAt E a)%Z.
Proof.
  intros Ha Hb H1 H2. unfold after.
  rewrite (sign_sub b a Hb Ha), (compare_finite a b (E := E) Ha Hb H1 H2).
  destruct (Z.compare_spec (valAt E a) (valAt E b));
    symmetry; [apply Z.ltb_ge | apply Z.ltb_ge | apply Z.ltb_lt]; lia.
Qed.

Lemma ascending_distinct (l : list number) :
  Forall (fun v => isFinite v = true) l ->
  let s := sort (fun a b => sub a b) (unique sameValueZero l) in
  StronglySorted (fun a b => ltb a b = true) s
  /\ (forall y, In y s -> In y l)
  /\ (forall x, In x l -> exists y, In y s /\ strictEq x y = true).
Proof.
  intros Hfin s. set (un := unique sameValueZero l) in *.
  assert (Hsub : forall y, In y un -> In y l) by (intros y; apply uniqueFrom_sub).
  assert (Hfs : forall y, In y s -> isFinite y = true).
  { intros y Hy. unfold s in Hy. rewrite sort_In in Hy.
    rewrite Forall_forall in Hfin. auto. }
  split; [| split].
  - apply StronglySorted_strict
      with (R := fun a b => after (fun x y => sub x y) a b = false).
    + apply sort_NoDup, unique_NoDup_upto, sameValueZero_refl.
    + intros a b Ha Hb Hab Hle.
      pose proof (Hfs a Ha) as Fa. pose proof (Hfs b Hb) as Fb.
      set (E := Z.min (expOf a) (expOf b)).
      rewrite (after_sub a b (E := E) Fa Fb) in Hle by (unfold E; lia).
      apply Z.ltb_ge in Hle.
      assert (Hne : strictEq a b = false).
      { unfold s in Ha, Hb. rewrite sort_In in Ha, Hb.
        destruct (Before_total _ Ha Hb Hab) as [H | H];
          apply uniqueFrom_apart in H.
        - destruct b; try discriminate. simpl in H. now rewrite strictEq_sym.
        - destruct a; try discriminate. exact H. }
      unfold strictEq, ltb in *.
      rewrite (compare_finite a b (E := E) Fa Fb) in * by (unfold E; lia).
      destruct (Z.compare_spec (valAt E a) (valAt E b)); try reflexivity;
        [discriminate | lia].
    + apply sort_sorted with (P := fun v => isFinite v = true).
      * intros a b Fa Fb. set (E := Z.min (expOf a) (expOf b)).
        rewrite (after_sub a b (E := E) Fa Fb), (after_sub b a (E := E) Fb Fa)
          by (unfold E; lia).
        rewrite Z.ltb_lt, Z.ltb_ge. lia.
      * intros a b c Fa Fb Fc.
        set (E := Z.min (expOf a) (Z.min (expOf b) (expOf c))).
        rewrite (after_sub a b (E := E) Fa Fb), (after_sub b c (E := E) Fb Fc),
          (after_sub a c (E := E) Fa Fc) by (unfold E; lia).
        rewrite !Z.ltb_ge. lia.
      * apply Forall_forall. intros y Hy. rewrite Forall_forall in Hfin. auto.
  - intros y Hy. unfold s in Hy. rewrite sort_In in Hy. auto.
  - intros x Hx.
    destruct (uniqueFrom_cover sameValueZero sameValueZero_refl l [] x Hx)
      as (y & [[] | Hy] & E).
    exists y. split; [unfold s; now rewrite sort_In |].
    rewrite Forall_forall in Hfin. specialize (Hfin x Hx).
    destruct x; try discriminate. exact E.
Qed.

(** X8.  When every year is a finite number, the year selector
    ([stats.years]) lists the years in strictly ascending order, hence each
    year once, and it lists exactly the years that occur in the data. *)
Theorem years_ascending (data : list ExcelRow) :
  (forall d, In d data -> isFinite (year d) = true) ->
  StronglySorted (fun a b => ltb a b = true) (Index.years data)
  /\ (forall y, In y (Index.years data) -> exists d, In d data /\ year d = y)
  /\ (forall d, In d data ->
        exists y, In y (Index.years data) /\ strictEq (year d) y = true).
Proof.
  intros Hfin.
  destruct (@ascending_distinct (map year data)) as (Hs & Hin & Hcov).
  { apply Forall_forall. intros v Hv. apply in_map_iff in Hv.
    destruct Hv as (d & <- & Hd). now apply Hfin. }
  split; [exact Hs | split].
  - intros y Hy. apply Hin in Hy. apply in_map_iff in Hy.
    destruct Hy as (d & E & Hd). now exists d.
  - intros d Hd. apply Hcov. now apply in_map.
Qed.

Lemma years_ascending_witness : Index.years scenarioF = [Dec 2024 0].
Proof.
  destruct (years_ascending scenarioF) as (_ & Hin & _).
  - intros d Hd. simpl in Hd.
    repeat (destruct Hd as [<- | Hd]; [reflexivity |]). destruct Hd.
  - reflexivity.
Defined.

Lemma relevantData_filtered (data : list ExcelRow) (y : number) :
  (if strictEq y zero then data
   else filter (fun d => strictEq (year d) y) data)
  = filteredData data y zero.
Proof.
  unfold filteredData. change (strictEq zero zero) with true.
  destruct (strictEq y zero).
  - symmetry. apply filter_true. reflexivity.
  - apply filter_ext. intros d. cbn [orb]. now rewrite andb_true_r.
Qed.

(** X9.  When every month is a finite number, the month selector
    ([availableMonths]) lists, in strictly ascending order, exactly the
    months of the records of the selected year: each month it offers
    selects at least one record, and every record of the selected year has
    its month on offer. *)
Theorem availableMonths_selects (data : list ExcelRow) (selectedYear : number) :
  (forall d, In d data -> isFinite (month d) = true) ->
  let months := Index.availableMonths data selectedYear in
  StronglySorted (fun a b => ltb a b = true) months
  /\ (forall m, In m months ->
        exists d, In d (filteredData data selectedYear m) /\ month d = m)
  /\ (forall d, In d (filteredData data selectedYear zero) ->
        exists m, In m months /\ strictEq (month d) m = true).
Proof.
  intros Hfin months. unfold months, Index.availableMonths.
  rewrite relevantData_filtered.
  assert (Hsub : forall d, In d (filteredData data selectedYear zero) -> In d data)
    by (intros d Hd; unfold filteredData in Hd; now apply filter_In in Hd).
  destruct (@ascending_distinct (map month (filteredData data selectedYear zero)))
    as (Hs & Hin & Hcov).
  { apply Forall_forall. intros v Hv. apply in_map_iff in Hv.
    destruct Hv as (d & <- & Hd). auto. }
  split; [exact Hs | split].
  - intros m Hm. apply Hin in Hm. apply in_map_iff in Hm.
    destruct Hm as (d & E & Hd). exists d. split; [| exact E].
    pose proof (Hfin d (Hsub d Hd)) as Fm.
    unfold filteredData in *. apply filter_In in Hd. destruct Hd as [Hd Hy].
    apply filter_In. split; [assumption |]. cbv zeta in *.
    apply andb_true_iff in Hy. destruct Hy as [Hy _]. rewrite Hy. cbn [andb].
    subst m. rewrite (strictEq_refl (month d)); [apply orb_true_r |].
    now destruct (month d).
  - intros d Hd. apply Hcov. now apply in_map.
Qed.

Lemma availableMonths_selects_witness :
  exists d, In d (filteredData scenarioF (Dec 2024 0) (Dec 5 0)) /\ month d = Dec 5 0.
Proof.
  destruct (availableMonths_selects scenarioF (Dec 2024 0)) as (_ & Hsel & _).
  - intros d Hd. simpl in Hd.
    repeat (destruct Hd as [<- | Hd]; [reflexivity |]). destruct Hd.
  - apply Hsel. vm_compute. now left.
Defined.

(** ** Mapped and missing ([listData], [projectsWithNoCoords]) *)

Lemma filter_negb_split {A} (f g : A -> bool) l :
  (forall a, g a = negb (f a)) ->
  Permutation (filter f l ++ filter g l) l
  /\ (forall a, In a (filter f l) -> In a (filter g l) -> False)
  /\ List.length (filter f l) + List.length (filter g l) = List.length l.
Proof.
  intros H.
  assert (E : filter g l = filter (fun a => negb (f a)) l)
    by (apply filter_ext; exact H).
  rewrite E. split; [apply filter_split_Permutation | split].
  - intros a Ha Hb. apply filter_In in Ha. apply filter_In in Hb.
    destruct Ha as [_ Ha], Hb as [_ Hb]. rewrite Ha in Hb. discriminate.
  - rewrite <- length_app.
    apply Permutation_length, filter_split_Permutation.
Qed.

(** X10.  The list filters split the records: [all] shows the filtered
    set, [missing] shows exactly the records the geocoding run counts as
    lacking coordinates, and every record is either in [mapped] or in
    [missing], never in both.  The same holds for the groups: a group is
    either drawn on the map or counted in [projectsWithNoCoords]. *)
Theorem mapped_missing_split
  (filteredData : list ExcelRow) (groups : list GroupedProject.t) :
  Index.listData filteredData Index.all = filteredData
  /\ Index.listData filteredData Index.missing = filter missingCoords filteredData
  /\ Permutation (Index.listData filteredData Index.mapped
                  ++ Index.listData filteredData Index.missing) filteredData
  /\ (forall d, In d (Index.listData filteredData Index.mapped) ->
                In d (Index.listData filteredData Index.missing) -> False)
  /\ Permutation (filter onMap groups ++ Index.projectsWithNoCoords groups) groups
  /\ (forall p, In p (filter onMap groups) ->
                In p (Index.projectsWithNoCoords groups) -> False)
  /\ List.length (filter onMap groups)
     + List.length (Index.projectsWithNoCoords groups) = List.length groups.
Proof.
  split; [reflexivity |]. split; [reflexivity |].
  destruct (filter_negb_split
              (fun d => present (latitude d) && present (longitude d))
              (fun d => negb (present (latitude d)) || negb (present (longitude d)))
              filteredData) as (H1 & H2 & _);
    [intros d; now rewrite negb_andb |].
  destruct (filter_negb_split onMap
              (fun p => negb (present (GroupedProject.latitude p))
                        || negb (present (GroupedProject.longitude p)))
              groups) as (H3 & H4 & H5);
    [intros p; unfold onMap; now rewrite negb_andb |].
  repeat split; assumption.
Qed.

(** ** Project groups ([groupedProjects]) *)

Lemma fold_set_keys {A V} (key : A -> jsstring) (f : Obj.t V -> A -> V) l :
  forall m seen,
  (forall k, In k seen <-> In k (map fst m)) ->
  map fst (fold_left (fun m d => Obj.set m (key d) (f m d)) l m)
  = map fst m ++ uniqueFrom JsString.eqb seen (map key l).
Proof.
  induction l as [| d r IH]; intros m seen Hseen; simpl.
  - now rewrite app_nil_r.
  - assert (Hex : existsb (JsString.eqb (key d)) seen
                  = existsb (JsString.eqb (key d)) (map fst m)).
    { apply eq_true_iff_eq. rewrite !(existsb_eqb _ eqb_eq). apply Hseen. }
    pose proof (keys_set m (key d) (f m d)) as Hk.
    destruct (existsb (JsString.eqb (key d)) (map fst m)) eqn:E; rewrite Hex.
    + rewrite (IH _ seen); rewrite Hk; [reflexivity | exact Hseen].
    + rewrite (IH _ (key d :: seen)); rewrite Hk.
      * now rewrite <- app_assoc.
      * intros k. simpl. rewrite in_app_iff, Hseen. simpl. tauto.
Qed.

Lemma fold_left_None {A B} (f : option A -> B -> option A) l :
  (forall b, f None b = None) -> fold_left f l None = None.
Proof. intros H. induction l as [| b r IH]; simpl; [reflexivity |]. now rewrite H. Qed.

Lemma sumOf_cons v vs : sumOf (v :: vs) = fold_left add vs (add zero v).
Proof. reflexivity. Qed.

Section GroupFacts.

Variable key : ExcelRow -> jsstring.

Lemma fileRecord_fileOk gs d :
  Obj.inherited (key d) = false ->
  fileRecord key (Some gs) d = Some (fileOk key gs d).
Proof.
  intros H. unfold fileRecord, fileOk. rewrite H.
  now destruct (Obj.getOwn gs (key d)).
Qed.

Lemma fileRecord_ok fd : forall gs,
  (forall d, In d fd -> Obj.inherited (key d) = false) ->
  fold_left (fileRecord key) fd (Some gs) = Some (fold_left (fileOk key) fd gs).
Proof.
  induction fd as [| d r IH]; intros gs H; [reflexivity |].
  cbn [fold_left]. rewrite fileRecord_fileOk by (apply H; now left).
  apply IH. intros d' Hd'. apply H. now right.
Qed.

Lemma fileRecord_throws fd : forall gs,
  (forall k, In k (map fst gs) -> Obj.inherited k = false) ->
  (exists d, In d fd /\ Obj.inherited (key d) = true) ->
  fold_left (fileRecord key) fd (Some gs) = None.
Proof.
  induction fd as [| d r IH]; intros gs Hgs (d' & Hd' & Hi); [destruct Hd' |].
  cbn [fold_left]. destruct (Obj.inherited (key d)) eqn:E.
  - assert (G : Obj.getOwn gs (key d) = None).
    { apply getOwn_None. intros Hk. apply Hgs in Hk. congruence. }
    replace (fileRecord key (Some gs) d) with (@None (Obj.t GroupedProject.t))
      by (unfold fileRecord; now rewrite G, E).
    now apply fold_left_None.
  - destruct Hd' as [-> | Hd']; [congruence |].
    rewrite fileRecord_fileOk by assumption.
    apply IH; [| now exists d'].
    intros k Hk. unfold fileOk in Hk. rewrite keys_set in Hk.
    destruct (existsb (JsString.eqb (key d)) (map fst gs)); [now apply Hgs |].
    apply in_app_or in Hk. destruct Hk as [Hk | [<- | []]]; auto.
Qed.

Lemma fileOk_getOwn fd : forall gs k,
  Obj.getOwn (fold_left (fileOk key) fd gs) k
  = fold_left (groupStep key) (labelled key k fd) (Obj.getOwn gs k).
Proof.
  induction fd as [| d r IH]; intros gs k; [reflexivity |].
  cbn [fold_left]. rewrite IH. unfold fileOk, labelled. cbn [filter].
  rewrite getOwn_set.
  destruct (JsString.eqb (key d) k) eqn:E; [| reflexivity].
  apply eqb_eq in E. subst k. reflexivity.
Qed.

Lemma fileOk_keys fd :
  map fst (fold_left (fileOk key) fd []) = unique JsString.eqb (map key fd).
Proof.
  exact (fold_set_keys key
           (fun gs d => addSpec (match Obj.getOwn gs (key d) with
                                 | Some g => g
                                 | None => newGroup key d
                                 end) d)
           fd [] [] (fun k => conj (fun H => H) (fun H => H))).
Qed.

Lemma addSpec_fold ds : forall g,
  GroupedProject.name (fold_left addSpec ds g) = GroupedProject.name g
  /\ GroupedProject.address (fold_left addSpec ds g) = GroupedProject.address g
  /\ GroupedProject.latitude (fold_left addSpec ds g) = GroupedProject.latitude g
  /\ GroupedProject.longitude (fold_left addSpec ds g) = GroupedProject.longitude g
  /\ GroupedProject.designer (fold_left addSpec ds g) = GroupedProject.designer g
  /\ GroupedProject.constructor (fold_left addSpec ds g)
     = GroupedProject.constructor g
  /\ GroupedProject.progress (fold_left addSpec ds g) = GroupedProject.progress g
  /\ GroupedProject.specs (fold_left addSpec ds g)
     = GroupedProject.specs g ++ map toSpec ds
  /\ GroupedProject.totalAmount (fold_left addSpec ds g)
     = fold_left add (map spec_amount ds) (GroupedProject.totalAmount g).
Proof.
  induction ds as [| d r IH]; intros g; cbn [fold_left map].
  - rewrite app_nil_r. repeat (split; [reflexivity |]). reflexivity.
  - destruct (IH (addSpec g d)) as (H1 & H2 & H3 & H4 & H5 & H6 & H7 & H8 & H9).
    rewrite H1, H2, H3, H4, H5, H6, H7, H8, H9. cbn.
    rewrite <- app_assoc. repeat (split; [reflexivity |]). reflexivity.
Qed.

Lemma groupStep_fold ds : forall g,
  fold_left (groupStep key) ds (Some g) = Some (fold_left addSpec ds g).
Proof. induction ds as [| d r IH]; intros g; [reflexivity | apply IH]. Qed.

(** What the loop leaves under the name [k]. *)
Lemma fileOk_group fd k g :
  In (k, g) (fold_left (fileOk key) fd []) ->
  exists d rest,
    labelled key k fd = d :: rest
    /\ g = fold_left addSpec rest (addSpec (newGroup key d) d).
Proof.
  intros Hin.
  assert (Hnd : NoDup (map fst (fold_left (fileOk key) fd [])))
    by (rewrite fileOk_keys; apply (unique_NoDup _ eqb_eq)).
  pose proof (getOwn_In _ _ _ Hnd Hin) as G.
  rewrite fileOk_getOwn in G. cbn [Obj.getOwn] in G.
  destruct (labelled key k fd) as [| d rest]; [discriminate |].
  exists d, rest. split; [reflexivity |].
  cbn [fold_left] in G. unfold groupStep at 2 in G.
  rewrite groupStep_fold in G. now injection G as <-.
Qed.

Lemma fileOk_name fd p :
  In p (fold_left (fileOk key) fd []) -> GroupedProject.name (snd p) = fst p.
Proof.
  destruct p as [k g]. intros Hin.
  destruct (fileOk_group _ _ _ Hin) as (d & rest & Hl & ->).
  cbn [fst snd].
  destruct (addSpec_fold rest (addSpec (newGroup key d) d)) as (-> & _).
  cbn. assert (Hd : In d (labelled key k fd)) by (rewrite Hl; now left).
  apply filter_In in Hd. now apply eqb_eq.
Qed.

Lemma inherited_dec fd :
  (forall d, In d fd -> Obj.inherited (key d) = false)
  \/ (exists d, In d fd /\ Obj.inherited (key d) = true).
Proof.
  destruct (existsb (fun d => Obj.inherited (key d)) fd) eqn:E.
  - right. now apply existsb_exists in E.
  - left. intros d Hd. destruct (Obj.inherited (key d)) eqn:Ei; [| reflexivity].
    rewrite <- E. symmetry. apply existsb_exists. now exists d.
Qed.

Lemma grouped_Some fd gs :
  groupedProjectsBy key fd = Some gs ->
  (forall d, In d fd -> Obj.inherited (key d) = false)
  /\ gs = map snd (Obj.entries (fold_left (fileOk key) fd [])).
Proof.
  unfold groupedProjectsBy. intros H.
  destruct (inherited_dec fd) as [Hok | Hbad].
  - split; [assumption |]. rewrite (fileRecord_ok _ _ Hok) in H.
    cbn in H. now injection H as <-.
  - rewrite fileRecord_throws in H; [discriminate | | assumption].
    intros k [].
Qed.

Lemma grouped_names fd :
  map GroupedProject.name (map snd (Obj.entries (fold_left (fileOk key) fd [])))
  = map fst (Obj.entries (fold_left (fileOk key) fd [])).
Proof.
  rewrite map_map. apply map_ext_in. intros p Hp.
  apply fileOk_name with (fd := fd). now apply entries_In.
Qed.

End GroupFacts.

(** X11.  [groupedProjects] throws exactly when some record of the
    filtered data is filed under a name that [Object.prototype] defines
    ([constructor], [toString], [__proto__], ...): no group is created for
    it and [.specs.push] fails.  Otherwise it returns a list. *)
Theorem groupedProjects_throws_iff (key : ExcelRow -> jsstring)
  (fd : list ExcelRow) :
  groupedProjectsBy key fd = None
  <-> exists d, In d fd /\ Obj.inherited (key d) = true.
Proof.
  unfold groupedProjectsBy. split.
  - intros H. destruct (inherited_dec key fd) as [Hok | Hbad]; [| assumption].
    rewrite (fileRecord_ok _ _ _ Hok) in H. discriminate.
  - intros Hbad. rewrite fileRecord_throws; [reflexivity | | assumption].
    intros k [].
Qed.

(** X12.  The list [groupedProjects] returns holds one group per distinct
    name of the filtered data and no other, so it is as long as the site
    count of [summary]; array-index names come first in ascending numeric
    order, the other names follow in the order in which they were first
    met. *)
Theorem groupedProjects_one_per_name (key : ExcelRow -> jsstring)
  (fd : list ExcelRow) (gs : list GroupedProject.t) :
  groupedProjectsBy key fd = Some gs ->
  NoDup (map GroupedProject.name gs)
  /\ (forall k, In k (map GroupedProject.name gs)
                <-> exists d, In d fd /\ key d = k)
  /\ List.length gs = List.length (unique JsString.eqb (map key fd))
  /\ (forall a b, Before gs a b ->
        match Obj.arrayIndex (GroupedProject.name a),
              Obj.arrayIndex (GroupedProject.name b) with
        | Some i, Some j => (i <= j)%Z
        | Some _, None => True
        | None, Some _ => False
        | None, None =>
          metBefore (map key fd) (GroupedProject.name a) (GroupedProject.name b)
        end).
Proof.
  intros H. apply grouped_Some in H. destruct H as (_ & ->).
  set (G := fold_left (fileOk key) fd []).
  pose proof (fileOk_keys key fd) as Hkeys. fold G in Hkeys.
  pose proof (Permutation_map fst (entries_Permutation G)) as HP.
  pose proof (grouped_names key fd) as Hn. fold G in Hn.
  split; [| split; [| split]].
  - rewrite Hn. apply (Permutation_NoDup (Permutation_sym HP)).
    rewrite Hkeys. apply (unique_NoDup _ eqb_eq).
  - intros k. rewrite Hn. split.
    + intros Hk. apply (Permutation_in _ HP) in Hk.
      rewrite Hkeys, (unique_In _ eqb_eq), in_map_iff in Hk.
      destruct Hk as (d & E & Hd). now exists d.
    + intros (d & Hd & E). apply (Permutation_in _ (Permutation_sym HP)).
      rewrite Hkeys, (unique_In _ eqb_eq), in_map_iff. now exists d.
  - rewrite length_map, entries_length, <- Hkeys. symmetry. apply length_map.
  - intros a b Hab. apply Before_map in Hab.
    destruct Hab as (p & q & -> & -> & Hpq).
    pose proof (Before_In Hpq) as [Hp Hq].
    rewrite (fileOk_name key fd p) by (now apply entries_In).
    rewrite (fileOk_name key fd q) by (now apply entries_In).
    apply entries_Before in Hpq.
    destruct (Obj.arrayIndex (fst p)), (Obj.arrayIndex (fst q)); try assumption.
    apply uniqueFrom_Before with (seen := []).
    fold (unique JsString.eqb (map key fd)). rewrite <- Hkeys.
    destruct Hpq as (l1 & l2 & l3 & E). rewrite E, !map_app. cbn [map].
    rewrite map_app. cbn [map].
    now exists (map fst l1), (map fst l2), (map fst l3).
Qed.

Lemma groupedProjects_one_per_name_witness :
  List.length (match Index.groupedProjects siteLines with
               | Some gs => gs
               | None => []
               end) = 2.
Proof.
  destruct (groupedProjects_one_per_name project_name siteLines
              (gs := match Index.groupedProjects siteLines with
                     | Some gs => gs
                     | None => []
                     end)) as (_ & _ & Hlen & _).
  - reflexivity.
  - rewrite Hlen. reflexivity.
Defined.

(** X13.  Every group of [groupedProjects] carries the address, the
    coordinates, the designer, the constructor and the progress of the
    first record met under its name, one line item per record of that
    name in the order of the data, and as [totalAmount] the sum of the
    amounts of its line items. *)
Theorem groupedProjects_group_content (key : ExcelRow -> jsstring)
  (fd : list ExcelRow) (gs : list GroupedProject.t) (g : GroupedProject.t) :
  groupedProjectsBy key fd = Some gs ->
  In g gs ->
  exists d rest,
    labelled key (GroupedProject.name g) fd = d :: rest
    /\ GroupedProject.address g = address d
    /\ GroupedProject.latitude g = latitude d
    /\ GroupedProject.longitude g = longitude d
    /\ GroupedProject.designer g = designer d
    /\ GroupedProject.constructor g = constructor d
    /\ GroupedProject.progress g = progress d
    /\ GroupedProject.specs g = map toSpec (d :: rest)
    /\ GroupedProject.totalAmount g
       = sumOf (map Spec.amount (GroupedProject.specs g)).
Proof.
  intros H Hg. apply grouped_Some in H. destruct H as (_ & ->).
  apply in_map_iff in Hg. destruct Hg as ([k g'] & Eg & Hp).
  cbn in Eg. subst g'. rewrite entries_In in Hp.
  pose proof (fileOk_name key fd _ Hp) as Hname. cbn in Hname.
  destruct (fileOk_group _ _ _ _ Hp) as (d & rest & Hl & Eg).
  destruct (addSpec_fold rest (addSpec (newGroup key d) d))
    as (_ & H2 & H3 & H4 & H5 & H6 & H7 & H8 & H9).
  rewrite <- Eg in *. rewrite Hname.
  exists d, rest. split; [exact Hl |].
  do 6 (split; [assumption |]). split; [exact H8 |].
  rewrite H9, H8. cbn [GroupedProject.specs GroupedProject.totalAmount addSpec
                       newGroup app map Spec.amount toSpec].
  rewrite map_map. cbn [Spec.amount toSpec]. reflexivity.
Qed.

Lemma groupedProjects_group_content_witness :
  GroupedProject.totalAmount
    (hd (newGroup project_name (cityHall 0))
        (match Index.groupedProjects siteLines with
         | Some gs => gs
         | None => []
         end))
  = sumOf [Dec 100 0; Dec 200 0].
Proof.
  destruct (@groupedProjects_group_content project_name siteLines
              (match Index.groupedProjects siteLines with
               | Some gs => gs
               | None => []
               end)
              (hd (newGroup project_name (cityHall 0))
                  (match Index.groupedProjects siteLines with
                   | Some gs => gs
                   | None => []
                   end)))
    as (d & rest & _ & _ & _ & _ & _ & _ & _ & _ & Htot).
  - reflexivity.
  - vm_compute. now left.
  - rewrite Htot. reflexivity.
Defined.

(** ** What a geocoding run does to the data ([processAndSaveData]) *)

Lemma withCoords_same d : withCoords d (latitude d) (longitude d) = d.
Proof. now destruct d. Qed.

Lemma merge_fields geoCache d :
  merge geoCache d
  = withCoords d (latitude (merge geoCache d)) (longitude (merge geoCache d))
  /\ (missingCoords d = false -> merge geoCache d = d).
Proof.
  unfold merge. destruct (missingCoords d).
  - split; [| discriminate].
    destruct (GeoCache.get geoCache (address d)); cbn;
      [reflexivity | reflexivity | symmetry; apply withCoords_same].
  - split; [symmetry; apply withCoords_same | reflexivity].
Qed.

Lemma processAndSaveData_result service candidate rawData w :
  fst (runState (processAndSaveData service candidate rawData) w)
  = match rowsToGeocode candidate rawData with
    | [] => rawData
    | _ :: _ =>
      map (merge (fst (runState
                        (geocodeLoop service (uniqueAddresses candidate rawData)
                                     GeoCache.empty) w))) rawData
    end.
Proof.
  unfold processAndSaveData, uniqueAddresses.
  destruct (rowsToGeocode candidate rawData) as [| d r] eqn:E; [reflexivity |].
  cbn [bind Monad_state runState].
  destruct (runState (geocodeLoop service
              (unique JsString.eqb (map address (d :: r))) GeoCache.empty) w)
    as [geoCache w'].
  reflexivity.
Qed.

(** X14.  A geocoding run hands [setData] the records it was given, as
    many and in the same order; every field other than the two
    coordinates is as it was, and a record that had both coordinates is
    not touched at all. *)
Theorem processAndSaveData_changes_only_coordinates
  (service : nat -> jsstring -> outcome) (candidate : ExcelRow -> bool)
  (rawData : list ExcelRow) (w : world) :
  Forall2 (fun d d' =>
             d' = withCoords d (latitude d') (longitude d')
             /\ (missingCoords d = false -> d' = d))
          rawData
          (fst (runState (processAndSaveData service candidate rawData) w)).
Proof.
  rewrite processAndSaveData_result.
  destruct (rowsToGeocode candidate rawData) as [| d0 r0].
  - induction rawData as [| d r IH]; constructor; [| exact IH].
    split; [symmetry; apply withCoords_same | reflexivity].
  - generalize (fst (runState
                       (geocodeLoop service (uniqueAddresses candidate rawData)
                                    GeoCache.empty) w)).
    intros geoCache.
    induction rawData as [| d r IH]; constructor; [| exact IH].
    apply merge_fields.
Qed.

(** The cache of a run in which no lookup yields coordinates stays
    empty. *)
Lemma geocodeLoop_all_fail service addrs :
  (forall n a, match service n a with Json (_ :: _) => False | _ => True end) ->
  forall geoCache w,
    fst (runState (geocodeLoop service addrs geoCache) w) = geoCache.
Proof.
  intros Hfail. induction addrs as [| a r IH]; intros geoCache w; [reflexivity |].
  cbn. rewrite IH. specialize (Hfail (List.length w) a).
  destruct (service (List.length w) a) as [| | [| [la lo] rest]];
    [reflexivity | reflexivity | reflexivity | destruct Hfail].
Qed.

(** X15.  When no lookup of a run yields coordinates (the request fails,
    the answer is not ok, or the body is empty), the data is stored as it
    was given, provided no record that lacks a coordinate has the name of
    a member of [Object.prototype] as its address: for such an address
    [geoCache[d.address]] is truthy although nothing was found. *)
Theorem processAndSaveData_all_lookups_fail
  (service : nat -> jsstring -> outcome) (candidate : ExcelRow -> bool)
  (rawData : list ExcelRow) (w : world) :
  (forall n a, match service n a with Json (_ :: _) => False | _ => True end) ->
  (forall d, In d rawData -> missingCoords d = true ->
             Obj.inherited (address d) = false) ->
  fst (runState (processAndSaveData service candidate rawData) w) = rawData.
Proof.
  intros Hfail Hplain. rewrite processAndSaveData_result.
  destruct (rowsToGeocode candidate rawData) as [| d0 r0]; [reflexivity |].
  rewrite geocodeLoop_all_fail by assumption.
  rewrite <- (map_id rawData) at 2. apply map_ext_in. intros d Hd.
  unfold merge. destruct (missingCoords d) eqn:E; [| reflexivity].
  unfold GeoCache.get.
  cbn [GeoCache.own GeoCache.proto GeoCache.empty Obj.getOwn].
  now rewrite (Hplain d Hd E).
Qed.

Lemma processAndSaveData_all_lookups_fail_witness :
  fst (runState (Index.processAndSaveData (fun _ _ => NotOk)
                   [cityHall 0; cityHall 1]) [])
  = [cityHall 0; cityHall 1].
Proof.
  apply (processAndSaveData_all_lookups_fail (fun _ _ => NotOk) Index.candidate
           [cityHall 0; cityHall 1] []).
  - intros n a. exact I.
  - intros d Hd _. simpl in Hd.
    repeat (destruct Hd as [<- | Hd]; [reflexivity |]). destruct Hd.
Defined.

(** X16.  The same run on a record that lacks a coordinate and whose
    address is the name of a member of [Object.prototype]: the record is
    stored with both coordinates empty, also the one it had. *)
Theorem processAndSaveData_inherited_address
  (service : nat -> jsstring -> outcome) (candidate : ExcelRow -> bool)
  (rawData : list ExcelRow) (w : world) (i : nat) (d : ExcelRow) :
  (forall n a, match service n a with Json (_ :: _) => False | _ => True end) ->
  rowsToGeocode candidate rawData <> [] ->
  nth_error rawData i = Some d ->
  missingCoords d = true ->
  Obj.inherited (address d) = true ->
  nth_error (fst (runState (processAndSaveData service candidate rawData) w)) i
  = Some (withCoords d None None).
Proof.
  intros Hfail Hne Hi Hm Hinh. rewrite processAndSaveData_result.
  destruct (rowsToGeocode candidate rawData) as [| d0 r0]; [congruence |].
  rewrite geocodeLoop_all_fail by assumption.
  rewrite nth_error_map, Hi. cbn [option_map]. f_equal.
  unfold merge. rewrite Hm. unfold GeoCache.get.
  cbn [GeoCache.own GeoCache.proto GeoCache.empty Obj.getOwn].
  now rewrite Hinh.
Qed.

Lemma processAndSaveData_inherited_address_witness :
  option_map latitude
    (nth_error (fst (runState (Index.processAndSaveData (fun _ _ => Throws)
                                 [oddAddress]) [])) 0)
  = Some None.
Proof.
  unfold Index.processAndSaveData.
  rewrite (@processAndSaveData_inherited_address (fun _ _ => Throws)
             Index.candidate [oddAddress] [] 0 oddAddress).
  - reflexivity.
  - intros n a. exact I.
  - discriminate.
  - reflexivity.
  - reflexivity.
  - reflexivity.
Defined.

(** The cache never holds [__proto__] as an own property. *)
Lemma set_own_proto g k c :
  Obj.getOwn (GeoCache.own g) (u "__proto__") = None ->
  Obj.getOwn (GeoCache.own (GeoCache.set g k c)) (u "__proto__") = None.
Proof.
  intros H. unfold GeoCache.set.
  destruct (JsString.eqb k (u "__proto__")) eqn:E; cbn [GeoCache.own];
    [exact H |].
  now rewrite getOwn_set, E.
Qed.

Lemma set_get_same g a c :
  Obj.getOwn (GeoCache.own g) (u "__proto__") = None ->
  GeoCache.get (GeoCache.set g a c) a = GeoCache.Hit c.
Proof.
  intros H. unfold GeoCache.set, GeoCache.get.
  destruct (JsString.eqb a (u "__proto__")) eqn:E;
    cbn [GeoCache.own GeoCache.proto].
  - apply eqb_eq in E. subst a. now rewrite H.
  - now rewrite getOwn_set, eqb_refl.
Qed.

Lemma set_get_other g b c a c0 :
  b <> a ->
  GeoCache.get g a = GeoCache.Hit c0 ->
  GeoCache.get (GeoCache.set g b c) a = GeoCache.Hit c0.
Proof.
  intros Hba. unfold GeoCache.set, GeoCache.get.
  destruct (JsString.eqb b (u "__proto__")) eqn:E;
    cbn [GeoCache.own GeoCache.proto].
  - apply eqb_eq in E.
    destruct (Obj.getOwn (GeoCache.own g) a); [trivial |].
    assert (Ea : JsString.eqb a (u "__proto__") = false)
      by (apply eqb_neq; congruence).
    rewrite Ea.
    destruct (GeoCache.proto g) as [c1 |]; intros H; exfalso;
      repeat match type of H with
             | (if ?x then _ else _) = _ => destruct x
             end; discriminate.
  - rewrite getOwn_set.
    assert (Eb : JsString.eqb b a = false) by (now apply eqb_neq).
    now rewrite Eb.
Qed.

Section Lookups.

Variable service : nat -> jsstring -> outcome.

Lemma geocodeLoop_step b r geoCache w :
  runState (geocodeLoop service (b :: r) geoCache) w
  = runState (geocodeLoop service r
                match service (List.length w) b with
                | Json ((la, lo) :: _) =>
                  GeoCache.set geoCache b
                    {| lat := parseFloat (Cell.toString la);
                       lon := parseFloat (Cell.toString lo) |}
                | _ => geoCache
                end) (w ++ [b]).
Proof.
  cbn. destruct (service (List.length w) b) as [| | [| [la lo] rest]];
    reflexivity.
Qed.

Lemma geocodeLoop_own_proto addrs : forall geoCache w,
  Obj.getOwn (GeoCache.own geoCache) (u "__proto__") = None ->
  Obj.getOwn (GeoCache.own
                (fst (runState (geocodeLoop service addrs geoCache) w)))
             (u "__proto__") = None.
Proof.
  induction addrs as [| b r IH]; intros geoCache w H; [exact H |].
  rewrite geocodeLoop_step. apply IH.
  destruct (service (List.length w) b) as [| | [| [la lo] rest]];
    try exact H.
  now apply set_own_proto.
Qed.

(** An entry of the cache outlives the lookups of other addresses. *)
Lemma geocodeLoop_keeps a c addrs : forall geoCache w,
  ~ In a addrs ->
  GeoCache.get geoCache a = GeoCache.Hit c ->
  GeoCache.get (fst (runState (geocodeLoop service addrs geoCache) w)) a
  = GeoCache.Hit c.
Proof.
  induction addrs as [| b r IH]; intros geoCache w Hn H; [exact H |].
  rewrite geocodeLoop_step. apply IH; [intros Hr; apply Hn; now right |].
  destruct (service (List.length w) b) as [| | [| [la lo] rest]];
    try exact H.
  apply set_get_other; [| exact H].
  intros ->. apply Hn. now left.
Qed.

(** The answer to the lookup of an address is what the cache holds for it
    at the end of the loop. *)
Lemma geocodeLoop_hit a la lo rest addrs : forall geoCache w k,
  NoDup addrs ->
  Obj.getOwn (GeoCache.own geoCache) (u "__proto__") = None ->
  nth_error addrs k = Some a ->
  service (List.length w + k) a = Json ((la, lo) :: rest) ->
  GeoCache.get (fst (runState (geocodeLoop service addrs geoCache) w)) a
  = GeoCache.Hit {| lat := parseFloat (Cell.toString la);
                    lon := parseFloat (Cell.toString lo) |}.
Proof.
  induction addrs as [| b r IH]; intros geoCache w k Hnd Hinv Hk Hs.
  - destruct k; discriminate.
  - inversion Hnd as [| ? ? Hb Hr]; subst. rewrite geocodeLoop_step.
    destruct k as [| k].
    + cbn in Hk. injection Hk as ->. rewrite Nat.add_0_r in Hs. rewrite Hs.
      apply geocodeLoop_keeps; [assumption |]. now apply set_get_same.
    + cbn in Hk. apply IH with (k := k); try assumption.
      * destruct (service (List.length w) b) as [| | [| [la' lo'] rest']];
          try exact Hinv.
        now apply set_own_proto.
      * rewrite length_app. cbn [List.length].
        replace (List.length w + 1 + k) with (List.length w + S k) by lia.
        exact Hs.
Qed.

End Lookups.

(** X17.  A record selected for geocoding whose address is answered with a
    non-empty body is stored with the coordinates [parseFloat] reads from
    the [lat] and [lon] members of the first element of that body; the
    address is the [k]-th distinct address of the selected records and
    its lookup is the [k]-th of the run. *)
Theorem candidate_gets_coordinates
  (service : nat -> jsstring -> outcome) (rawData : list ExcelRow) (w : world)
  (i k : nat) (d : ExcelRow) (la lo : cell) (rest : list (cell * cell)) :
  nth_error rawData i = Some d ->
  Index.candidate d = true ->
  nth_error (uniqueAddresses Index.candidate rawData) k = Some (address d) ->
  service (List.length w + k) (address d) = Json ((la, lo) :: rest) ->
  nth_error (fst (runState (Index.processAndSaveData service rawData) w)) i
  = Some (withCoords d (Some (parseFloat (Cell.toString la)))
                       (Some (parseFloat (Cell.toString lo)))).
Proof.
  intros Hi Hc Hk Hs. unfold Index.processAndSaveData.
  rewrite processAndSaveData_result.
  destruct (rowsToGeocode Index.candidate rawData) as [| d0 r0] eqn:E.
  - exfalso. assert (Hd : In d (rowsToGeocode Index.candidate rawData)).
    { apply filter_In. split; [| assumption]. eapply nth_error_In, Hi. }
    rewrite E in Hd. destruct Hd.
  - rewrite nth_error_map, Hi. cbn [option_map]. f_equal.
    unfold merge.
    assert (Hm : missingCoords d = true).
    { unfold Index.candidate in Hc. rewrite !andb_true_iff in Hc. tauto. }
    rewrite Hm.
    rewrite (geocodeLoop_hit service (la := la) (lo := lo) (rest := rest))
      with (k := k); try assumption; try reflexivity.
    apply (unique_NoDup _ eqb_eq).
Qed.

Lemma candidate_gets_coordinates_witness :
  nth_error (fst (runState (Index.processAndSaveData seoul
                              [cityHall 0; cityHall 1]) [])) 1
  = Some (withCoords (cityHall 1) (Some (Dec 375665 (-4)))
                                  (Some (Dec 1269780 (-4)))).
Proof.
  rewrite (@candidate_gets_coordinates seoul [cityHall 0; cityHall 1] [] 1 0
             (cityHall 1) (Str (u "37.5665")) (Str (u "126.9780")) []).
  - reflexivity.
  - reflexivity.
  - reflexivity.
  - reflexivity.
  - reflexivity.
Defined.

Lemma candidate_agree d : Index.candidate d = Part000.candidate d.
Proof.
  unfold Index.candidate, Part000.candidate.
  destruct (5 <? List.length (address d)) eqn:E.
  - destruct (length_gt_5 _ E) as (_ & ->). cbn [negb]. now rewrite andb_true_r.
  - now rewrite !andb_false_r.
Qed.

(** X18.  The two variants of [processAndSaveData] select the same records
    for geocoding, look up the same addresses and store the same data:
    the comparison with ['-'] that only [src/index.tsx] makes is implied
    by the test on the length of the address. *)
Theorem processAndSaveData_variants_agree
  (service : nat -> jsstring -> outcome) (rawData : list ExcelRow) (w : world) :
  rowsToGeocode Index.candidate rawData = rowsToGeocode Part000.candidate rawData
  /\ runState (Index.processAndSaveData service rawData) w
     = runState (Part000.processAndSaveData service rawData) w.
Proof.
  assert (Hrows : rowsToGeocode Index.candidate rawData
                  = rowsToGeocode Part000.candidate rawData).
  { unfold rowsToGeocode. apply filter_ext. exact candidate_agree. }
  split; [exact Hrows |].
  unfold Index.processAndSaveData, Part000.processAndSaveData,
    processAndSaveData, uniqueAddresses.
  now rewrite Hrows.
Qed.

(** ** The site count and the project cards *)

(** X19.  In [src/index.tsx] the site count of [summary] is the number of
    groups of [groupedProjects], whenever the latter does not throw. *)
Theorem siteCount_counts_groups (fd : list ExcelRow)
  (gs : list GroupedProject.t) :
  Index.groupedProjects fd = Some gs ->
  siteCount (Index.summary fd) = List.length gs.
Proof.
  intros Hg.
  destruct (groupedProjects_one_per_name project_name fd Hg) as (_ & _ & -> & _).
  reflexivity.
Qed.

Lemma siteCount_counts_groups_witness :
  siteCount (Index.summary siteLines) = 2.
Proof.
  destruct (Index.groupedProjects siteLines) as [gs |] eqn:Eg; [| discriminate].
  rewrite (siteCount_counts_groups siteLines Eg).
  vm_compute in Eg. injection Eg as <-. reflexivity.
Defined.

(** ** Trimmed text ([String.prototype.trim]) *)

Lemma trimStart_idempotent s : trimStart (trimStart s) = trimStart s.
Proof.
  induction s as [| c r IH]; [reflexivity |].
  cbn [trimStart]. destruct (isSpace c) eqn:E; [exact IH |].
  cbn [trimStart]. now rewrite E.
Qed.

Lemma trimStart_snoc l c :
  isSpace c = false -> trimStart (l ++ [c]) = trimStart l ++ [c].
Proof.
  intros Hc. induction l as [| x r IH]; cbn [trimStart app].
  - now rewrite Hc.
  - destruct (isSpace x); [exact IH | reflexivity].
Qed.

Lemma trimStart_starts s :
  match trimStart s with c :: _ => isSpace c = false | [] => True end.
Proof.
  induction s as [| c r IH]; [exact I |].
  cbn [trimStart]. destruct (isSpace c) eqn:E; [exact IH | exact E].
Qed.

Lemma trimStart_fixed c r : isSpace c = false -> trimStart (c :: r) = c :: r.
Proof. intros H. cbn [trimStart]. now rewrite H. Qed.

Lemma trim_shape s :
  trim s = []
  \/ exists c r, isSpace c = false /\ trimStart s = c :: r
                 /\ trim s = c :: rev (trimStart (rev r)).
Proof.
  unfold trim, trimEnd. pose proof (trimStart_starts s) as Hh.
  destruct (trimStart s) as [| c r]; [now left |].
  right. exists c, r. split; [assumption | split; [reflexivity |]].
  cbn [rev]. rewrite (@trimStart_snoc _ _ Hh), rev_app_distr. reflexivity.
Qed.

Lemma trim_idempotent s : trim (trim s) = trim s.
Proof.
  destruct (trim_shape s) as [-> | (c & r & Hc & _ & ->)]; [reflexivity |].
  unfold trim, trimEnd. rewrite (@trimStart_fixed _ _ Hc).
  cbn [rev]. rewrite rev_involutive, (@trimStart_snoc _ _ Hc).
  rewrite trimStart_idempotent, rev_app_distr. reflexivity.
Qed.

(** A trimmed text neither starts nor ends with white space. *)
Lemma trim_ends s :
  match trim s with c :: _ => isSpace c = false | [] => True end
  /\ match rev (trim s) with c :: _ => isSpace c = false | [] => True end.
Proof.
  split.
  - destruct (trim_shape s) as [-> | (c & r & Hc & _ & ->)]; [exact I | exact Hc].
  - unfold trim, trimEnd. rewrite rev_involutive. apply trimStart_starts.
Qed.

(** X20.  Every text field of a record built by [handleFileUpload] of
    [src/unnamed/part_000] is trimmed: it neither starts nor ends with
    white space, and trimming it again changes nothing. *)
Theorem part000_text_trimmed (now : nat -> number) (json : list rawRow)
  (r : ExcelRow) (f : ExcelRow -> jsstring) :
  In r (Part000.parsed now json) ->
  In f [project_name; progress; address; designer; constructor; product_name] ->
  trim (f r) = f r
  /\ match f r with c :: _ => isSpace c = false | [] => True end
  /\ match rev (f r) with c :: _ => isSpace c = false | [] => True end.
Proof.
  intros Hr Hf. unfold Part000.parsed in Hr.
  apply filter_In in Hr. destruct Hr as [Hr _].
  apply In_mapi in Hr. destruct Hr as (k & row & _ & ->).
  cbn [In] in Hf.
  repeat (destruct Hf as [<- | Hf];
          [cbn [Part000.parseRow project_name progress address designer
                constructor product_name];
           split; [apply trim_idempotent | apply trim_ends] |]).
  destruct Hf.
Qed.

Lemma part000_text_trimmed_witness :
  trim (project_name (Part000.parseRow (fun _ => zero) demoRow 0))
  = project_name (Part000.parseRow (fun _ => zero) demoRow 0).
Proof.
  refine (proj1 (@part000_text_trimmed (fun _ => zero) [demoRow]
                   (Part000.parseRow (fun _ => zero) demoRow 0) project_name
                   _ _)).
  - left. reflexivity.
  - left. reflexivity.
Defined.

(** X21.  On records whose project names are trimmed, as those built by
    [handleFileUpload] of [src/unnamed/part_000] are, the [trim] in
    [groupedProjects] of that file changes nothing: it groups as
    [groupedProjects] of [src/index.tsx] does. *)
Theorem groupedProjects_variants_agree (fd : list ExcelRow) :
  (forall d, In d fd -> trim (project_name d) = project_name d) ->
  Part000.groupedProjects fd = Index.groupedProjects fd.
Proof.
  intros H. unfold Part000.groupedProjects, Index.groupedProjects,
    groupedProjectsBy.
  f_equal. apply fold_left_ext_in. intros gs d Hd.
  unfold fileRecord, newGroup. now rewrite (H d Hd).
Qed.

Lemma groupedProjects_variants_agree_witness :
  Part000.groupedProjects siteLines = Index.groupedProjects siteLines.
Proof.
  apply groupedProjects_variants_agree.
  intros d Hd. simpl in Hd.
  repeat (destruct Hd as [<- | Hd]; [reflexivity |]). destruct Hd.
Defined.

(** ** Record identifiers *)

Lemma uintDigits_inj a : forall b, uintDigits a = uintDigits b -> a = b.
Proof.
  induction a; intros b H; destruct b; cbn in H; try discriminate;
    try reflexivity; injection H as H; f_equal; now apply IHa.
Qed.

Lemma uintDigits_digits a : Forall (fun c => isDigit c = true) (uintDigits a).
Proof. induction a; cbn; constructor; try reflexivity; assumption. Qed.

Lemma natDigits_inj n m : natDigits n = natDigits m -> n = m.
Proof.
  assert (Hz : forall p, posDigits p <> [48%N]).
  { intros p H. unfold posDigits in H.
    apply (uintDigits_inj _ (Decimal.D0 Decimal.Nil)) in H.
    pose proof (DecimalPos.Unsigned.of_to p) as E. rewrite H in E.
    discriminate. }
  unfold natDigits. destruct n as [| n], m as [| m]; intros H.
  - reflexivity.
  - symmetry in H. now apply Hz in H.
  - now apply Hz in H.
  - unfold posDigits in H. apply uintDigits_inj in H.
    apply DecimalPos.Unsigned.to_uint_inj in H.
    now apply Nat2Pos.inj in H.
Qed.

Lemma natDigits_digits n : Forall (fun c => isDigit c = true) (natDigits n).
Proof.
  destruct n; [repeat constructor | apply uintDigits_digits].
Qed.

(** Two numerals followed by something that is no digit. *)
Lemma digits_prefix (l1 : jsstring) : forall l2 t1 t2,
  Forall (fun c => isDigit c = true) l1 ->
  Forall (fun c => isDigit c = true) l2 ->
  match t1 with c :: _ => isDigit c = false | [] => True end ->
  match t2 with c :: _ => isDigit c = false | [] => True end ->
  l1 ++ t1 = l2 ++ t2 -> l1 = l2.
Proof.
  induction l1 as [| c r IH]; intros l2 t1 t2 H1 H2 Ht1 Ht2 E.
  - destruct l2 as [| c2 r2]; [reflexivity |]. cbn in E. subst t1.
    inversion H2; subst. congruence.
  - destruct l2 as [| c2 r2]; cbn in E.
    + subst t2. inversion H1; subst. congruence.
    + injection E as -> E. f_equal.
      inversion H1; subst. inversion H2; subst. now apply (IH r2 t1 t2).
Qed.

Lemma NoDup_map_filter {A B} (g : A -> B) (p : A -> bool) l :
  NoDup (map g l) -> NoDup (map g (filter p l)).
Proof.
  induction l as [| x r IH]; cbn; intros H; [constructor |].
  inversion H as [| ? ? Hx Hr]; subst.
  destruct (p x); cbn; [| now apply IH].
  constructor; [| now apply IH].
  intros Hin. apply Hx. apply in_map_iff in Hin.
  destruct Hin as (y & E & Hy). apply filter_In in Hy.
  apply in_map_iff. exists y. tauto.
Qed.

Lemma NoDup_mapiFrom {A B C} (f : A -> nat -> B) (g : B -> C) l :
  (forall a b i j, g (f a i) = g (f b j) -> i = j) ->
  forall k, NoDup (map g (mapiFrom f k l)).
Proof.
  intros Hinj. induction l as [| x r IH]; intros k; cbn; constructor.
  - intros Hin. apply in_map_iff in Hin. destruct Hin as (y & E & Hy).
    apply In_mapiFrom in Hy. destruct Hy as (k' & a & _ & ->).
    apply Hinj in E. lia.
  - apply IH.
Qed.

(** X22.  The identifiers [handleFileUpload] gives to the records of one
    file are pairwise distinct, in [src/index.tsx] and, whatever the clock
    returns, in [src/unnamed/part_000]. *)
Theorem parsed_ids_distinct (now : nat -> number) (json : list rawRow) :
  NoDup (map id (Index.parsed json))
  /\ NoDup (map id (Part000.parsed now json)).
Proof.
  split.
  - unfold Index.parsed, mapi. apply NoDup_map_filter, NoDup_mapiFrom.
    intros a b i j E. cbn [Index.parseRow id] in E. apply app_inv_head in E.
    now apply natDigits_inj.
  - unfold Part000.parsed, mapi. apply NoDup_map_filter, NoDup_mapiFrom.
    intros a b i j E. cbn [Part000.parseRow id] in E. apply app_inv_head in E.
    apply natDigits_inj.
    apply (@digits_prefix (natDigits i) (natDigits j)
             (u "-" ++ JsNumber.toString (now i))
             (u "-" ++ JsNumber.toString (now j)));
      try apply natDigits_digits; try reflexivity; exact E.
Qed.
